(** * landotrade: the admission layer of [main_secure.py]

    A shallow embedding of the API-key middleware, the sliding-window rate
    limiter, the tool wrappers and the start-up wiring of the secure
    HyperLiquid MCP server, with the properties stated about them. *)

From stdpp Require Import gmap strings list fin_maps sorting pretty.
From Stdlib Require Import ZArith Lia Ascii.

Local Open Scope Z_scope.

(** ** Process configuration

    [API_KEY], [REQUIRE_AUTH] and [RATE_LIMIT] are module globals read once
    from the environment at import time and never assigned again.
    [RATE_LIMIT] is [int(os.getenv("RATE_LIMIT", "60"))], any Python
    integer, so it is a [Z]. *)

Record Config := mkConfig {
  API_KEY : string;
  REQUIRE_AUTH : bool;
  RATE_LIMIT : Z
}.

(** [RATE_LIMIT_WINDOW = 60  # seconds] *)
Definition RATE_LIMIT_WINDOW : Z := 60.

(** ** Time

    A [datetime] has microsecond resolution: it is modelled as the number
    of microseconds since a fixed origin, and [timedelta(seconds=s)] as
    the corresponding number of microseconds.  The range check of
    [datetime] arithmetic (years 1 to 9999) is left out. *)

Definition datetime := Z.

Definition timedelta (seconds : Z) : Z := seconds * 1000000.

Definition datetime_sub (d : datetime) (delta : Z) : datetime := d - delta.

(** ** A state monad for the module-level mutable state *)

Definition State (S A : Type) : Type := S → A * S.

Definition ret {S A} (a : A) : State S A := λ s, (a, s).

Definition bind {S A B} (m : State S A) (k : A → State S B) : State S B :=
  λ s, let '(a, s') := m s in k a s'.

Definition modify {S} (f : S → S) : State S unit := λ s, (tt, f s).

Declare Scope state_scope.
Delimit Scope state_scope with state.
Notation "x <- m ;; k" := (bind m (λ x, k))
  (at level 100, m at next level, right associativity) : state_scope.
Notation "m ;; k" := (bind m (λ _, k))
  (at level 100, right associativity) : state_scope.

(** ** The rate limiter

    [rate_limit_storage = defaultdict(list)]: a dictionary from client
    identity to the list of admitted request times.  Reading a missing key
    of a [defaultdict] stores the default (the empty list) under that key
    and returns it. *)

Definition defaultdict_getitem (k : string)
  : State (gmap string (list datetime)) (list datetime) :=
  λ d, match d !! k with
       | Some v => (v, d)
       | None => ([], <[k := []]> d)
       end.

Definition dict_setitem (k : string) (v : list datetime)
  : State (gmap string (list datetime)) unit :=
  modify (λ d, <[k := v]> d).

(** [rate_limit_storage[client_id].append(now)] *)
Definition list_append_at (k : string) (x : datetime)
  : State (gmap string (list datetime)) unit :=
  (l <- defaultdict_getitem k ;; dict_setitem k (l ++ [x]))%state.

(** [len(l)] as a Python integer. *)
Definition len {A} (l : list A) : Z := Z.of_nat (length l).

(** [check_rate_limit(client_id)]; the reading of [datetime.now()] is the
    argument [now]. *)
Definition check_rate_limit (cfg : Config) (now : datetime) (client_id : string)
  : State (gmap string (list datetime)) bool :=
  (if negb (REQUIRE_AUTH cfg) then ret true
   else
     let minute_ago := datetime_sub now (timedelta RATE_LIMIT_WINDOW) in
     old <- defaultdict_getitem client_id ;;
     dict_setitem client_id
       (filter (λ req_time, minute_ago < req_time) old) ;;
     cur <- defaultdict_getitem client_id ;;
     if RATE_LIMIT cfg <=? len cur then ret false
     else
       list_append_at client_id now ;;
       ret true)%state.

(** The log of an identity as a reader of the dictionary sees it. *)
Definition log_of (st : gmap string (list datetime)) (c : string) : list datetime :=
  default [] (st !! c).

(** ** Histories of checks

    The limiter is exercised by a sequence of calls, each with the client
    identity it is given and the time it reads from the clock. *)

Definition call : Type := string * datetime.

(** The storage after a sequence of calls. *)
Fixpoint run_checks (cfg : Config) (calls : list call)
    (st : gmap string (list datetime)) : gmap string (list datetime) :=
  match calls with
  | [] => st
  | (c, now) :: rest => run_checks cfg rest (check_rate_limit cfg now c st).2
  end.

(** The times of the calls for identity [c] that returned [True], in the
    order of the calls. *)
Fixpoint admitted (cfg : Config) (c : string) (calls : list call)
    (st : gmap string (list datetime)) : list datetime :=
  match calls with
  | [] => []
  | (c', now) :: rest =>
      let '(ok, st') := check_rate_limit cfg now c' st in
      (if ok && bool_decide (c' = c) then [now] else [])
        ++ admitted cfg c rest st'
  end.

(** The clock readings of successive calls never decrease. *)
Definition clock_monotone (calls : list call) : Prop :=
  StronglySorted Z.le (calls.*2).

(** The part of a list of times inside the window that trails [t]:
    later than [t - RATE_LIMIT_WINDOW] seconds and not later than [t]. *)
Definition in_window (t : datetime) (l : list datetime) : list datetime :=
  filter (λ s, datetime_sub t (timedelta RATE_LIMIT_WINDOW) < s ∧ s ≤ t) l.

(** The pruning step of the limiter: the times later than [t] minus the
    window. *)
Definition recent (t : datetime) (l : list datetime) : list datetime :=
  filter (λ s, datetime_sub t (timedelta RATE_LIMIT_WINDOW) < s) l.

(** ** The authentication middleware

    Of a request the middleware reads the path and two optional strings:
    [request.headers.get("X-API-Key")] and
    [request.query_params.get("api_key")], each [None] when the request
    carries no such header or parameter. *)

Record Request := mkRequest {
  url_path : string;
  header_X_API_Key : option string;
  query_api_key : option string
}.

Record JSONResponse := mkJSONResponse {
  status_code : Z;
  content : list (string * string)
}.

(** What [dispatch] does with a request: hand it to [call_next] and return
    whatever the rest of the application answers, or answer by itself. *)
Inductive Dispatched :=
| CallNext (request : Request)
| Respond (response : JSONResponse).

(** Truth value of a Python string: only the empty string is false. *)
Definition truthy (s : string) : bool := negb (bool_decide (s = "")).

(** [a or b] on optional strings: [a] when it is neither [None] nor empty,
    else [b]. *)
Definition py_or (a b : option string) : option string :=
  match a with
  | Some s => if truthy s then Some s else b
  | None => b
  end.

(** [AuthMiddleware.dispatch] *)
Definition dispatch (cfg : Config) (request : Request) : Dispatched :=
  if bool_decide (url_path request = "/health") then CallNext request
  else if REQUIRE_AUTH cfg && truthy (API_KEY cfg) then
    let api_key := py_or (header_X_API_Key request) (query_api_key request) in
    if bool_decide (api_key ≠ Some (API_KEY cfg)) then
      Respond (mkJSONResponse 401 [("error", "Unauthorized - Invalid API Key")])
    else CallNext request
  else CallNext request.

(** The request proceeds to the application. *)
Definition admits (cfg : Config) (request : Request) : Prop :=
  dispatch cfg request = CallNext request.

(** The credential the middleware compares with the secret. *)
Definition supplied_credential (request : Request) : option string :=
  py_or (header_X_API_Key request) (query_api_key request).

(** ** The tools

    The trading service is an object of another package.  Its methods are
    taken as a parameter: a call acts on the state of the exchange and
    either returns a Python object or raises.  The tools pass floats and
    results through without looking at them, so their types are
    parameters too.  Every call made to the service is recorded. *)

Inductive ServiceCall {PyFloat : Type} :=
| service_get_account_balance
| service_get_open_positions
| service_get_open_orders
| service_market_open_position
    (symbol side : string) (size_in_dollars : PyFloat)
    (leverage : option Z) (reduce_only : bool) (slippage_tolerance : PyFloat).
Arguments ServiceCall : clear implicits.

Inductive Outcome {PyObject PyException : Type} :=
| Returns (value : PyObject)
| Raises (exn : PyException).
Arguments Outcome : clear implicits.

Record World {PyFloat Exchange : Type} := mkWorld {
  rate_limit_storage : gmap string (list datetime);
  exchange : Exchange;
  service_calls : list (ServiceCall PyFloat)
}.
Arguments World : clear implicits.
Arguments mkWorld {_ _} _ _ _.

(** A tool invocation as the protocol delivers it: the name of the tool
    with its arguments (defaults filled in). *)
Inductive ToolCall {PyFloat : Type} :=
| tool_get_account_balance
| tool_get_open_positions
| tool_get_open_orders
| tool_market_open_position
    (symbol side : string) (size_in_dollars : PyFloat)
    (leverage : option Z) (reduce_only : bool) (slippage_tolerance : PyFloat).
Arguments ToolCall : clear implicits.

Section Tools.
Context {PyFloat PyObject PyException Exchange : Type}.
Context (py_dict : list (string * string) → PyObject).
Context (service : ServiceCall PyFloat → Exchange →
                   Outcome PyObject PyException * Exchange).
Context (cfg : Config).

(** [check_rate_limit] acting on the storage inside the world. *)
Definition on_storage {A} (m : State (gmap string (list datetime)) A)
  : State (World PyFloat Exchange) A :=
  λ w, let '(a, st') := m (rate_limit_storage w) in
       (a, mkWorld st' (exchange w) (service_calls w)).

(** [await service.method(args)] *)
Definition await_service (c : ServiceCall PyFloat)
  : State (World PyFloat Exchange) (Outcome PyObject PyException) :=
  λ w, let '(r, e') := service c (exchange w) in
       (r, mkWorld (rate_limit_storage w) e' (service_calls w ++ [c])).

Definition rate_limit_exceeded : PyObject :=
  py_dict [("error", "Rate limit exceeded")].

Definition get_account_balance (now : datetime)
  : State (World PyFloat Exchange) (Outcome PyObject PyException) :=
  (ok <- on_storage (check_rate_limit cfg now "default") ;;
   if negb ok then ret (Returns rate_limit_exceeded)
   else await_service service_get_account_balance)%state.

Definition get_open_positions (now : datetime)
  : State (World PyFloat Exchange) (Outcome PyObject PyException) :=
  (ok <- on_storage (check_rate_limit cfg now "default") ;;
   if negb ok then ret (Returns rate_limit_exceeded)
   else await_service service_get_open_positions)%state.

Definition get_open_orders (now : datetime)
  : State (World PyFloat Exchange) (Outcome PyObject PyException) :=
  (ok <- on_storage (check_rate_limit cfg now "default") ;;
   if negb ok then ret (Returns rate_limit_exceeded)
   else await_service service_get_open_orders)%state.

Definition market_open_position
    (symbol side : string) (size_in_dollars : PyFloat)
    (leverage : option Z) (reduce_only : bool) (slippage_tolerance : PyFloat)
    (now : datetime)
  : State (World PyFloat Exchange) (Outcome PyObject PyException) :=
  (ok <- on_storage (check_rate_limit cfg now "default") ;;
   if negb ok then ret (Returns rate_limit_exceeded)
   else await_service
          (service_market_open_position
             symbol side size_in_dollars leverage reduce_only
             slippage_tolerance))%state.

(** The registry built by the [@mcp.tool()] decorators: a tool call runs
    the function of that name on its arguments. *)
Definition call_tool (tc : ToolCall PyFloat) (now : datetime)
  : State (World PyFloat Exchange) (Outcome PyObject PyException) :=
  match tc with
  | tool_get_account_balance => get_account_balance now
  | tool_get_open_positions => get_open_positions now
  | tool_get_open_orders => get_open_orders now
  | tool_market_open_position sy si sz lv ro sl =>
      market_open_position sy si sz lv ro sl now
  end.

End Tools.

(** The service method a tool stands for: same name, same arguments. *)
Definition delegate {PyFloat} (tc : ToolCall PyFloat) : ServiceCall PyFloat :=
  match tc with
  | tool_get_account_balance => service_get_account_balance
  | tool_get_open_positions => service_get_open_positions
  | tool_get_open_orders => service_get_open_orders
  | tool_market_open_position sy si sz lv ro sl =>
      service_market_open_position sy si sz lv ro sl
  end.

(** ** Start-up

    [main] first initialises the service, then serves the tools either
    over standard input and output or over HTTP.  Its inputs are the
    command line, whether [init_service()] returned a service (it raises
    [ValueError] without a private key), and the values taken from the
    environment in the HTTP branch: [PORT] is
    [int(os.getenv("PORT", "8080"))], [None] when [int] raises. *)

Inductive Middleware := AuthMiddleware.

Inductive Serving :=
| StdioServer
| HttpServer (middleware : list Middleware) (host : string) (port : Z).

Record Startup := mkStartup {
  argv : list string;
  init_service_ok : bool;
  PORT : option Z;
  HOST : string
}.

(** [main()]; [None] stands for the exception that is logged and raised
    again. *)
Definition main (s : Startup) : option Serving :=
  if negb (init_service_ok s) then None
  else if bool_decide (1 < len (argv s))
          && bool_decide (argv s !! 1%nat = Some "stdio")
  then Some StdioServer
  else match PORT s with
       | None => None
       | Some port => Some (HttpServer [AuthMiddleware] (HOST s) port)
       end.

(** The middleware a server runs requests through. *)
Definition installed_middleware (srv : Serving) : list Middleware :=
  match srv with
  | StdioServer => []
  | HttpServer middleware _ _ => middleware
  end.

Definition run_middleware (cfg : Config) (m : Middleware) (request : Request)
  : Dispatched :=
  match m with
  | AuthMiddleware => dispatch cfg request
  end.

(** A request passes the installed middleware one after the other; the
    first that answers by itself ends the request. *)
Fixpoint through (cfg : Config) (mws : list Middleware) (request : Request)
  : Dispatched :=
  match mws with
  | [] => CallNext request
  | m :: rest =>
      match run_middleware cfg m request with
      | CallNext request' => through cfg rest request'
      | Respond response => Respond response
      end
  end.

(** A tool invocation reaches the process as a protocol message on
    standard input, or inside an HTTP request. *)
Inductive Inbound {PyFloat : Type} :=
| StdioMessage (tc : ToolCall PyFloat)
| HttpRequest (request : Request) (tc : ToolCall PyFloat).
Arguments Inbound : clear implicits.

Inductive Reply {PyObject PyException : Type} :=
| ToolReply (outcome : Outcome PyObject PyException)
| HttpReply (response : JSONResponse).
Arguments Reply : clear implicits.

Section Serve.
Context {PyFloat PyObject PyException Exchange : Type}.
Context (py_dict : list (string * string) → PyObject).
Context (service : ServiceCall PyFloat → Exchange →
                   Outcome PyObject PyException * Exchange).
Context (cfg : Config).

(** How a running server treats an inbound tool invocation; [None] when
    the message does not arrive over the transport the server listens
    on. *)
Definition serve (srv : Serving) (msg : Inbound PyFloat) (now : datetime)
  : State (World PyFloat Exchange) (option (Reply PyObject PyException)) :=
  match srv, msg with
  | StdioServer, StdioMessage tc =>
      (o <- call_tool py_dict service cfg tc now ;;
       ret (Some (ToolReply o)))%state
  | HttpServer mws _ _, HttpRequest request tc =>
      match through cfg mws request with
      | Respond response => ret (Some (HttpReply response))
      | CallNext _ =>
          (o <- call_tool py_dict service cfg tc now ;;
           ret (Some (ToolReply o)))%state
      end
  | _, _ => ret None
  end.

End Serve.

(** ** Python values

    The values a JSON document or the environment can hand to the program:
    [None], booleans, integers, floats, strings, lists and dictionaries
    with string keys.  Floats are a parameter. *)

#[warnings="-register-all"]
Inductive PyValue {Float : Type} :=
| VNone
| VBool (b : bool)
| VInt (z : Z)
| VFloat (x : Float)
| VStr (s : string)
| VList (items : list PyValue)
| VDict (members : gmap string PyValue).
Arguments PyValue : clear implicits.

(** Truth value of a Python value, as [not v] and [if v] use it;
    [float_nonzero] tells whether a float differs from zero. *)
Definition py_bool {Float} (float_nonzero : Float → bool) (v : PyValue Float)
  : bool :=
  match v with
  | VNone => false
  | VBool b => b
  | VInt z => negb (z =? 0)
  | VFloat x => float_nonzero x
  | VStr s => truthy s
  | VList items => match items with [] => false | _ => true end
  | VDict members => negb (bool_decide (members = ∅))
  end.

(** ** The environment

    [os.environ] after [load_dotenv()], as a dictionary of strings. *)

(** [os.getenv(name, default)] *)
Definition getenv (environ : gmap string string) (name default : string)
  : string :=
  match environ !! name with
  | Some v => v
  | None => default
  end.

(** [str.lower()] on the letters A to Z; other bytes are kept.  The
    program only compares the result with ["true"], and no character
    outside A to Z has one of the letters t, r, u, e as lower case. *)
Definition lower_ascii (a : ascii) : ascii :=
  let n := N_of_ascii a in
  if bool_decide (65 ≤ n ≤ 90)%N then ascii_of_N (n + 32) else a.

Fixpoint lower (s : string) : string :=
  match s with
  | EmptyString => EmptyString
  | String a rest => String (lower_ascii a) (lower rest)
  end.

(** The three module globals.  [py_int] is the built-in [int] on
    strings, [None] where it raises [ValueError]; the module then fails
    to import. *)
Definition load_config (py_int : string → option Z)
    (environ : gmap string string) : option Config :=
  match py_int (getenv environ "RATE_LIMIT" "60") with
  | Some rate_limit =>
      Some (mkConfig
              (getenv environ "API_KEY" "")
              (bool_decide (lower (getenv environ "REQUIRE_AUTH" "false")
                            = "true"))
              rate_limit)
  | None => None
  end.

(** ** Initialising the service

    The file system is asked whether the configuration file exists and
    what [json.load] makes of it: [None] for no such path, [Some None]
    for a path that exists but cannot be opened or parsed, [Some (Some v)]
    for the parsed document. *)

Inductive InitError :=
| ConfigUnreadable
| AttributeError
| ValueError (message : string).

(** The arguments [init_service] passes to [HyperLiquidService]. *)
Record ServiceArgs {Float : Type} := mkServiceArgs {
  private_key : PyValue Float;
  account_address : PyValue Float;
  is_testnet : PyValue Float
}.
Arguments ServiceArgs : clear implicits.
Arguments mkServiceArgs {_} _ _ _.

(** [dict.get(key, default)] *)
Definition dict_get {Float} (d : gmap string (PyValue Float)) (key : string)
    (default : PyValue Float) : PyValue Float :=
  match d !! key with
  | Some v => v
  | None => default
  end.

(** [os.getenv(name)]: [None] when the variable is not set. *)
Definition getenv_opt {Float} (environ : gmap string string) (name : string)
  : PyValue Float :=
  match environ !! name with
  | Some v => VStr v
  | None => VNone
  end.

(** [init_service()], up to the call of the [HyperLiquidService]
    constructor: either an exception, or the arguments of that call. *)
Definition init_service {Float} (float_nonzero : Float → bool)
    (fs : string → option (option (PyValue Float)))
    (environ : gmap string string) : InitError + ServiceArgs Float :=
  let config_file := getenv environ "CONFIG_FILE" "config.json" in
  let loaded :=
    match fs config_file with
    | Some content =>
        match content with
        | Some (VDict config) =>
            inr (mkServiceArgs
                   (dict_get config "private_key" VNone)
                   (dict_get config "account_address" VNone)
                   (dict_get config "testnet" (VBool false)))
        | Some _ => inl AttributeError
        | None => inl ConfigUnreadable
        end
    | None =>
        inr (mkServiceArgs
               (getenv_opt environ "HYPERLIQUID_PRIVATE_KEY")
               (getenv_opt environ "HYPERLIQUID_ACCOUNT_ADDRESS")
               (VBool (bool_decide
                         (lower (getenv environ "HYPERLIQUID_TESTNET" "false")
                          = "true"))))
    end in
  match loaded with
  | inl e => inl e
  | inr args =>
      if negb (py_bool float_nonzero (private_key args))
      then inl (ValueError "HYPERLIQUID_PRIVATE_KEY is required")
      else inr args
  end.

(** What [main] is started with: the command line, the outcome of
    [init_service()] ([constructor_ok] tells whether [HyperLiquidService]
    returns rather than raises on given arguments), and the two values
    read from the environment in the HTTP branch. *)
Definition startup {Float} (float_nonzero : Float → bool)
    (constructor_ok : ServiceArgs Float → bool)
    (py_int : string → option Z)
    (fs : string → option (option (PyValue Float)))
    (environ : gmap string string) (sys_argv : list string) : Startup :=
  mkStartup
    sys_argv
    (match init_service float_nonzero fs environ with
     | inr args => constructor_ok args
     | inl _ => false
     end)
    (py_int (getenv environ "PORT" "8080"))
    (getenv environ "HOST" "0.0.0.0").

(** ** The plain routes *)

(** [health_check()] *)
Definition health_check {Float} (cfg : Config) : gmap string (PyValue Float) :=
  {[ "status" := VStr "ok";
     "service" := VStr "hyperliquid-mcp";
     "auth_required" := VBool (REQUIRE_AUTH cfg);
     "rate_limit" :=
       VStr (if REQUIRE_AUTH cfg
             then pretty (RATE_LIMIT cfg) +:+ " requests per minute"
             else "unlimited") ]}.

(** [root()] *)
Definition root {Float} (cfg : Config) : gmap string (PyValue Float) :=
  {[ "name" := VStr "HyperLiquid MCP Server";
     "version" := VStr "1.0.0";
     "auth" :=
       VStr (if REQUIRE_AUTH cfg
             then "Use X-API-Key header or api_key query parameter"
             else "No authentication required");
     "endpoints" :=
       VDict {[ "/health" := VStr "Health check";
                "/mcp" := VStr "MCP protocol endpoint" ]};
     "documentation" := VStr "https://github.com/landoskyy/landotrade" ]}.

(** ** Sequences of tool calls

    The tools run one at a time on the shared world. *)

Section ToolRuns.
Context {PyFloat PyObject PyException Exchange : Type}.
Context (py_dict : list (string * string) → PyObject).
Context (service : ServiceCall PyFloat → Exchange →
                   Outcome PyObject PyException * Exchange).
Context (cfg : Config).

Fixpoint run_tools (tcs : list (ToolCall PyFloat * datetime))
    (w : World PyFloat Exchange) : World PyFloat Exchange :=
  match tcs with
  | [] => w
  | (tc, now) :: rest =>
      run_tools rest (call_tool py_dict service cfg tc now w).2
  end.

End ToolRuns.

(** The checks a sequence of tool calls makes: all for ["default"]. *)
Definition limiter_calls {PyFloat} (tcs : list (ToolCall PyFloat * datetime))
  : list call :=
  (λ p, ("default", p.2)) <$> tcs.

(** * Properties *)

Example scenario_C :
  let cfg := mkConfig "secret1" true 2 in
  let '(r1, s1) := check_rate_limit cfg 1000000 "default" ∅ in
  let '(r2, s2) := check_rate_limit cfg 2000000 "default" s1 in
  let '(r3, s3) := check_rate_limit cfg 3000000 "default" s2 in
  let '(r4, s4) := check_rate_limit cfg 62000000 "default" s3 in
  (r1, r2, r3, r4, log_of s3 "default", log_of s4 "default")
  = (true, true, false, true, [1000000; 2000000], [62000000]).
Proof. vm_compute. reflexivity. Qed.

(** ** Facts about one check *)

Lemma window_pos : 0 < timedelta RATE_LIMIT_WINDOW.
Proof. reflexivity. Qed.

Lemma check_rate_limit_eq cfg now c st :
  check_rate_limit cfg now c st =
  if REQUIRE_AUTH cfg then
    if RATE_LIMIT cfg <=? len (recent now (log_of st c))
    then (false, <[c := recent now (log_of st c)]> st)
    else (true, <[c := recent now (log_of st c) ++ [now]]> st)
  else (true, st).
Proof.
  unfold check_rate_limit, recent, log_of.
  destruct (REQUIRE_AUTH cfg); simpl; [|done].
  unfold bind, defaultdict_getitem, dict_setitem, list_append_at, modify, bind,
    defaultdict_getitem, ret.
  destruct (st !! c) as [l|] eqn:Hl; simpl;
    rewrite ?lookup_insert_eq; simpl.
  - destruct (_ <=? _); [done|].
    rewrite lookup_insert_eq. unfold dict_setitem, modify.
    by rewrite insert_insert_eq.
  - rewrite insert_insert_eq, filter_nil.
    destruct (_ <=? _); [done|].
    rewrite lookup_insert_eq. unfold dict_setitem, modify.
    by rewrite insert_insert_eq.
Qed.

Lemma check_log_same cfg now c st :
  REQUIRE_AUTH cfg = true →
  log_of (check_rate_limit cfg now c st).2 c =
  recent now (log_of st c)
    ++ (if (check_rate_limit cfg now c st).1 then [now] else []).
Proof.
  intros Ha. rewrite check_rate_limit_eq, Ha. unfold log_of at 1.
  destruct (_ <=? _); simpl; rewrite lookup_insert_eq; simpl;
    by rewrite ?app_nil_r.
Qed.

Lemma check_log_other cfg now c c' st :
  c' ≠ c →
  log_of (check_rate_limit cfg now c' st).2 c = log_of st c.
Proof.
  intros Hne. rewrite check_rate_limit_eq. unfold log_of.
  destruct (REQUIRE_AUTH cfg); [|done].
  destruct (_ <=? _); simpl; by rewrite lookup_insert_ne.
Qed.

Lemma check_admits_iff cfg now c st :
  REQUIRE_AUTH cfg = true →
  (check_rate_limit cfg now c st).1 = true ↔
  len (recent now (log_of st c)) < RATE_LIMIT cfg.
Proof.
  intros Ha. rewrite check_rate_limit_eq, Ha.
  destruct (Z.leb_spec (RATE_LIMIT cfg) (len (recent now (log_of st c))));
    simpl; split; (lia || done).
Qed.

(** ** Facts about pruning and windows *)

Lemma len_nonneg {A} (l : list A) : 0 ≤ len l.
Proof. unfold len. lia. Qed.

Lemma len_app {A} (l k : list A) : len (l ++ k) = len l + len k.
Proof. unfold len. rewrite length_app. lia. Qed.

Lemma len_filter_le {A} (P : A → Prop) `{!∀ x, Decision (P x)} (l : list A) :
  len (filter P l) ≤ len l.
Proof. unfold len. pose proof (length_filter P l). lia. Qed.

(** A filter that removes nothing by count removes nothing at all. *)
Lemma filter_full {A} (P : A → Prop) `{!∀ x, Decision (P x)} (l : list A) :
  len l ≤ len (filter P l) → filter P l = l.
Proof.
  induction l as [|x l IH]; intros Hlen; [done|].
  rewrite filter_cons in *. destruct (decide (P x)).
  - f_equal. apply IH. unfold len in *. simpl in Hlen. lia.
  - pose proof (len_filter_le P l). unfold len in *. simpl in Hlen. lia.
Qed.

Lemma recent_recent t now l :
  t ≤ now → recent now (recent t l) = recent now l.
Proof.
  intros Hle. unfold recent. rewrite list_filter_filter.
  apply list_filter_iff. intros s. unfold datetime_sub. lia.
Qed.

Lemma in_window_recent t now l :
  now ≤ t → in_window t (recent now l) = in_window t l.
Proof.
  intros Hle. unfold in_window, recent. rewrite list_filter_filter.
  apply list_filter_iff. intros s. unfold datetime_sub. lia.
Qed.

Lemma in_window_recent_le t now l :
  len (in_window t (recent now l)) ≤ len (in_window t l).
Proof.
  transitivity (len (recent now (in_window t l))); [|apply len_filter_le].
  unfold in_window, recent. rewrite !list_filter_filter.
  apply Z.eq_le_incl. f_equal. apply list_filter_iff. intros s. tauto.
Qed.

Lemma in_window_later t l :
  Forall (λ s, t < s) l → in_window t l = [].
Proof.
  induction 1 as [|s l Hs _ IH]; [done|].
  unfold in_window in *. rewrite filter_cons_False; [done|lia].
Qed.

Lemma in_window_app t l k :
  in_window t (l ++ k) = in_window t l ++ in_window t k.
Proof. apply filter_app. Qed.

Lemma recent_app t l k : recent t (l ++ k) = recent t l ++ recent t k.
Proof. apply filter_app. Qed.

Lemma len_recent_le t l : len (recent t l) ≤ len l.
Proof. apply len_filter_le. Qed.

Lemma len_in_window_le t l : len (in_window t l) ≤ len l.
Proof. apply len_filter_le. Qed.

Lemma recent_as_window t l :
  Forall (λ s, s ≤ t) l → recent t l = in_window t l.
Proof.
  intros Hall. unfold recent, in_window.
  induction Hall as [|s l Hs _ IH]; [done|].
  rewrite !filter_cons.
  destruct (decide (_ < s)), (decide (_ ∧ _)); try lia;
    [f_equal|]; exact IH.
Qed.

(** ** Facts about histories, with enforcement enabled *)

Lemma run_checks_app cfg l1 l2 st :
  run_checks cfg (l1 ++ l2) st = run_checks cfg l2 (run_checks cfg l1 st).
Proof.
  revert st. induction l1 as [|[c now] l1 IH]; intros st; simpl; [done|].
  apply IH.
Qed.

(** The admitted times of a history continued are those of its first
    part followed by those of the rest, run from the storage the first
    part leaves. *)
Lemma admitted_app cfg c l1 l2 st :
  admitted cfg c (l1 ++ l2) st
  = admitted cfg c l1 st ++ admitted cfg c l2 (run_checks cfg l1 st).
Proof.
  revert st. induction l1 as [|[c' now] l1 IH]; intros st; simpl; [done|].
  destruct (check_rate_limit cfg now c' st) as [ok st']. simpl.
  by rewrite IH, app_assoc.
Qed.

Lemma admitted_elem_of cfg c calls st x :
  x ∈ admitted cfg c calls st → (c, x) ∈ calls.
Proof.
  revert st. induction calls as [|[c' now] rest IH]; intros st; simpl.
  - by intros ?%not_elem_of_nil.
  - destruct (check_rate_limit cfg now c' st) as [ok st'].
    rewrite elem_of_app. intros [Hx|Hx].
    + destruct ok; simpl in Hx; [|by apply not_elem_of_nil in Hx].
      case_bool_decide; [|by apply not_elem_of_nil in Hx].
      apply list_elem_of_singleton in Hx. subst. left.
    + right. by eapply IH.
Qed.

Lemma admitted_Forall cfg c calls st (P : datetime → Prop) :
  Forall P (calls.*2) → Forall P (admitted cfg c calls st).
Proof.
  rewrite !Forall_forall. intros Hall x Hx%admitted_elem_of.
  apply Hall. apply list_elem_of_fmap. by exists (c, x).
Qed.

Section Enforced.
Context (cfg : Config) (Hauth : REQUIRE_AUTH cfg = true).

(** Seen from a time no earlier than every call so far, the stored log
    and the history of admitted calls have the same recent part. *)
Lemma log_sync c calls st now :
  Forall (λ t, t ≤ now) (calls.*2) →
  recent now (log_of (run_checks cfg calls st) c) =
  recent now (log_of st c ++ admitted cfg c calls st).
Proof.
  revert st. induction calls as [|[c' t] rest IH]; intros st Hall; simpl.
  - by rewrite app_nil_r.
  - apply Forall_cons in Hall as [Ht Hall]. simpl in Ht.
    rewrite IH by done.
    destruct (check_rate_limit cfg t c' st) as [ok st'] eqn:Hck. simpl.
    rewrite app_assoc, !recent_app. f_equal.
    destruct (decide (c' = c)) as [->|Hne].
    + replace st' with (check_rate_limit cfg t c st).2 by by rewrite Hck.
      rewrite check_log_same, Hck by done. simpl.
      rewrite bool_decide_eq_true_2, andb_true_r by done.
      by rewrite !recent_app, recent_recent.
    + replace st' with (check_rate_limit cfg t c' st).2 by by rewrite Hck.
      rewrite check_log_other by done.
      rewrite bool_decide_eq_false_2, andb_false_r by done.
      by rewrite app_nil_r.
Qed.

(** Every stored time was read from the clock by some call, or was
    stored before the history began. *)
Lemma log_times c calls st x :
  x ∈ log_of (run_checks cfg calls st) c →
  x ∈ log_of st c ∨ x ∈ calls.*2.
Proof.
  revert st. induction calls as [|[c' t] rest IH]; intros st; simpl.
  - by left.
  - intros [Hx|Hx]%IH; [|right; by right].
    destruct (decide (c' = c)) as [->|Hne].
    + rewrite check_log_same in Hx by done.
      apply elem_of_app in Hx as [Hx|Hx].
      * left. unfold recent in Hx. by apply list_elem_of_filter in Hx as [_ ?].
      * destruct (check_rate_limit cfg t c st).1;
          [|by apply not_elem_of_nil in Hx].
        apply list_elem_of_singleton in Hx. subst. right. left.
    + rewrite check_log_other in Hx by done. by left.
Qed.

(** No log grows beyond the quota. *)
Lemma check_log_length c' t c st :
  len (log_of st c) ≤ Z.max 0 (RATE_LIMIT cfg) →
  len (log_of (check_rate_limit cfg t c' st).2 c) ≤ Z.max 0 (RATE_LIMIT cfg).
Proof.
  intros Hlen. destruct (decide (c' = c)) as [->|Hne].
  - rewrite check_log_same, len_app by done.
    pose proof (len_recent_le t (log_of st c)).
    destruct (check_rate_limit cfg t c st).1 eqn:Hok.
    + apply check_admits_iff in Hok; [|done]. change (len [t]) with 1. lia.
    + change (len (@nil datetime)) with 0. lia.
  - by rewrite check_log_other.
Qed.

Lemma log_length c calls st :
  len (log_of st c) ≤ Z.max 0 (RATE_LIMIT cfg) →
  len (log_of (run_checks cfg calls st) c) ≤ Z.max 0 (RATE_LIMIT cfg).
Proof.
  revert st. induction calls as [|[c' t] rest IH]; intros st Hlen; simpl.
  - done.
  - apply IH. by apply check_log_length.
Qed.
(** The sliding-window bound, for a history that starts in any storage
    whose log already obeys it. *)
Lemma window_bound_from c calls st :
  clock_monotone calls →
  (∀ t, len (in_window t (log_of st c)) ≤ RATE_LIMIT cfg) →
  ∀ t, len (in_window t (log_of st c ++ admitted cfg c calls st))
       ≤ RATE_LIMIT cfg.
Proof.
  unfold clock_monotone.
  revert st. induction calls as [|[c' now] rest IH]; intros st Hmono Hst t.
  { simpl. by rewrite app_nil_r. }
  rewrite fmap_cons in Hmono. simpl in Hmono.
  apply StronglySorted_cons in Hmono as [Hnow Hmono].
  simpl. destruct (check_rate_limit cfg now c' st) as [ok st'] eqn:Hck.
  assert (Hst' : st' = (check_rate_limit cfg now c' st).2) by by rewrite Hck.
  assert (Hok : ok = (check_rate_limit cfg now c' st).1) by by rewrite Hck.
  pose proof (admitted_Forall cfg c rest st' _ Hnow) as Hge.
  destruct (decide (c' = c)) as [->|Hne].
  - rewrite bool_decide_eq_true_2, andb_true_r by done.
    assert (Hlog : log_of st' c =
                   recent now (log_of st c) ++ (if ok then [now] else [])).
    { rewrite Hst', Hok. by apply check_log_same. }
    specialize (IH st' Hmono). rewrite Hlog in IH.
    assert (Hnew : ∀ t0, len (in_window t0
              (recent now (log_of st c) ++ (if ok then [now] else [])))
              ≤ RATE_LIMIT cfg).
    { intros t0. destruct ok.
      - symmetry in Hok. apply check_admits_iff in Hok; [|done].
        etrans; [apply len_in_window_le|].
        rewrite len_app. change (len [now]) with 1. lia.
      - rewrite app_nil_r. etrans; [apply in_window_recent_le|]. apply Hst. }
    specialize (IH Hnew).
    destruct (decide (t < now)) as [Hlt|Hle].
    + rewrite in_window_app.
      rewrite (in_window_later t (_ ++ _)).
      * rewrite app_nil_r. apply Hst.
      * apply Forall_app. split.
        -- destruct ok; [|done]. apply Forall_singleton. done.
        -- eapply Forall_impl; [exact Hge|]. simpl. intros s ?. lia.
    + rewrite in_window_app, <- (in_window_recent t now) by lia.
      rewrite <- in_window_app, app_assoc. apply IH.
  - rewrite bool_decide_eq_false_2, andb_false_r by done. simpl.
    assert (Hlog : log_of st' c = log_of st c).
    { rewrite Hst'. by apply check_log_other. }
    specialize (IH st' Hmono). rewrite Hlog in IH. by apply IH.
Qed.
End Enforced.

(** ** The authentication middleware *)

Lemma truthy_true s : s ≠ "" → truthy s = true.
Proof. intros Hs. unfold truthy. by rewrite bool_decide_eq_false_2. Qed.

Lemma dispatch_health cfg request :
  url_path request = "/health" → dispatch cfg request = CallNext request.
Proof. intros Hp. unfold dispatch. by rewrite bool_decide_eq_true_2. Qed.

(** With enforcement on and a secret configured, a request to another
    path than the health check is decided by one comparison. *)
Lemma dispatch_enforced cfg request :
  url_path request ≠ "/health" →
  REQUIRE_AUTH cfg = true →
  API_KEY cfg ≠ "" →
  dispatch cfg request =
  if bool_decide (supplied_credential request = Some (API_KEY cfg))
  then CallNext request
  else Respond (mkJSONResponse 401 [("error", "Unauthorized - Invalid API Key")]).
Proof.
  intros Hp Ha Hk. unfold dispatch, supplied_credential.
  rewrite bool_decide_eq_false_2, Ha, truthy_true by done. simpl.
  repeat case_bool_decide; done.
Qed.

Lemma admits_enforced cfg request :
  url_path request ≠ "/health" →
  REQUIRE_AUTH cfg = true →
  API_KEY cfg ≠ "" →
  admits cfg request ↔ supplied_credential request = Some (API_KEY cfg).
Proof.
  intros Hp Ha Hk. unfold admits. rewrite dispatch_enforced by done.
  case_bool_decide; split; intros; done.
Qed.

(** C3: on a path other than [/health], with enforcement enabled and a
    non-empty secret, the middleware lets the request through exactly when
    the supplied credential equals the secret as a string, and otherwise
    answers with status 401 and the body
    [{"error": "Unauthorized - Invalid API Key"}]. *)
Theorem C3_admits_iff_credential_equals_secret cfg request :
  url_path request ≠ "/health" →
  REQUIRE_AUTH cfg = true →
  API_KEY cfg ≠ "" →
  (admits cfg request ↔ supplied_credential request = Some (API_KEY cfg))
  ∧ (supplied_credential request ≠ Some (API_KEY cfg) →
     dispatch cfg request =
     Respond (mkJSONResponse 401 [("error", "Unauthorized - Invalid API Key")])).
Proof.
  intros Hp Ha Hk. split; [by apply admits_enforced|].
  intros Hne. rewrite dispatch_enforced by done.
  by rewrite bool_decide_eq_false_2.
Qed.

Lemma C3_witness :
  let cfg := mkConfig "secret1" true 60 in
  (admits cfg (mkRequest "/mcp" (Some "secret1") None)
   ↔ supplied_credential (mkRequest "/mcp" (Some "secret1") None)
     = Some (API_KEY cfg))
  ∧ (supplied_credential (mkRequest "/mcp" (Some "wrong") None)
       ≠ Some (API_KEY cfg) →
     dispatch cfg (mkRequest "/mcp" (Some "wrong") None) =
     Respond (mkJSONResponse 401 [("error", "Unauthorized - Invalid API Key")])).
Proof.
  simpl. split.
  - apply (C3_admits_iff_credential_equals_secret
             (mkConfig "secret1" true 60)
             (mkRequest "/mcp" (Some "secret1") None)); done.
  - apply (C3_admits_iff_credential_equals_secret
             (mkConfig "secret1" true 60)
             (mkRequest "/mcp" (Some "wrong") None)); done.
Defined.

(** C4: with enforcement enabled and the empty string as secret, every
    request is let through, whatever its path and whatever credential it
    carries or lacks. *)
Theorem C4_empty_secret_admits_all (quota : Z) (request : Request) :
  admits (mkConfig "" true quota) request.
Proof.
  unfold admits, dispatch. simpl. by case_bool_decide.
Qed.

(** C6: a request whose path is [/health] is let through for every
    enforcement flag, secret and credential. *)
Theorem C6_health_always_admitted cfg request :
  url_path request = "/health" → admits cfg request.
Proof. apply dispatch_health. Qed.

Lemma C6_witness :
  admits (mkConfig "secret1" true 60) (mkRequest "/health" (Some "wrong") None).
Proof.
  apply (C6_health_always_admitted
           (mkConfig "secret1" true 60)
           (mkRequest "/health" (Some "wrong") None)).
  reflexivity.
Defined.

(** The header is looked at first: the query parameter counts only when
    the header is absent or empty. *)
Lemma supplied_credential_header request h :
  header_X_API_Key request = Some h → h ≠ "" →
  supplied_credential request = Some h.
Proof.
  intros Hh Hne. unfold supplied_credential, py_or.
  by rewrite Hh, truthy_true.
Qed.

Lemma supplied_credential_query request :
  header_X_API_Key request = None ∨ header_X_API_Key request = Some "" →
  supplied_credential request = query_api_key request.
Proof.
  intros [Hh|Hh]; unfold supplied_credential, py_or; by rewrite Hh.
Qed.

(** C5, as stated, fails: a request with the right secret in the query
    parameter and another, non-empty value in the header is answered with
    401. *)
Lemma C5_counterexample :
  let cfg := mkConfig "secret1" true 60 in
  let request := mkRequest "/mcp" (Some "wrong") (Some "secret1") in
  REQUIRE_AUTH cfg = true
  ∧ API_KEY cfg ≠ ""
  ∧ query_api_key request = Some (API_KEY cfg)
  ∧ ¬ admits cfg request
  ∧ dispatch cfg request =
    Respond (mkJSONResponse 401 [("error", "Unauthorized - Invalid API Key")]).
Proof. simpl. repeat split; done. Qed.

(** C5, amended: on a path other than [/health], with enforcement enabled
    and a non-empty secret, a non-empty [X-API-Key] header decides alone
    (the request is let through exactly when the header equals the
    secret), and the [api_key] query parameter decides when the header is
    absent or empty. *)
Theorem C5_header_takes_precedence cfg request :
  url_path request ≠ "/health" →
  REQUIRE_AUTH cfg = true →
  API_KEY cfg ≠ "" →
  (∀ h, header_X_API_Key request = Some h → h ≠ "" →
        (admits cfg request ↔ h = API_KEY cfg))
  ∧ (header_X_API_Key request = None ∨ header_X_API_Key request = Some "" →
        (admits cfg request ↔ query_api_key request = Some (API_KEY cfg))).
Proof.
  intros Hp Ha Hk. split.
  - intros h Hh Hne. rewrite admits_enforced by done.
    rewrite (supplied_credential_header _ h) by done.
    split; [by intros [= ->] | by intros ->].
  - intros Hh. rewrite admits_enforced by done.
    by rewrite supplied_credential_query.
Qed.

Lemma C5_witness :
  let cfg := mkConfig "secret1" true 60 in
  let request := mkRequest "/mcp" None (Some "secret1") in
  (∀ h, header_X_API_Key request = Some h → h ≠ "" →
        (admits cfg request ↔ h = API_KEY cfg))
  ∧ (header_X_API_Key request = None ∨ header_X_API_Key request = Some "" →
        (admits cfg request ↔ query_api_key request = Some (API_KEY cfg))).
Proof.
  apply (C5_header_takes_precedence
           (mkConfig "secret1" true 60)
           (mkRequest "/mcp" None (Some "secret1"))); done.
Defined.

(** ** The rate limiter *)

(** C7: with enforcement disabled, [check_rate_limit] returns [True] and
    leaves the whole storage as it was, for every identity and storage. *)
Theorem C7_disabled_admits_without_bookkeeping cfg now c st :
  REQUIRE_AUTH cfg = false →
  check_rate_limit cfg now c st = (true, st).
Proof. intros Ha. by rewrite check_rate_limit_eq, Ha. Qed.

Lemma C7_witness :
  check_rate_limit (mkConfig "" false 0) 5000000 "default"
    {["default" := [1000000]]}
  = (true, {["default" := [1000000]]}).
Proof.
  apply (C7_disabled_admits_without_bookkeeping
           (mkConfig "" false 0) 5000000 "default" {["default" := [1000000]]}).
  reflexivity.
Defined.

Lemma log_of_empty c : log_of ∅ c = [].
Proof. unfold log_of. by rewrite lookup_empty. Qed.

Lemma rejected_enforced cfg now c st :
  (check_rate_limit cfg now c st).1 = false → REQUIRE_AUTH cfg = true.
Proof.
  rewrite check_rate_limit_eq. by destruct (REQUIRE_AUTH cfg).
Qed.

(** A rejected check rewrites the log with its pruned copy; the two are
    equal when the log was no longer than the quota allows. *)
Lemma rejection_keeps_short_log cfg now c st :
  len (log_of st c) ≤ Z.max 0 (RATE_LIMIT cfg) →
  (check_rate_limit cfg now c st).1 = false →
  log_of (check_rate_limit cfg now c st).2 c = log_of st c.
Proof.
  intros Hlen Hrej. pose proof (rejected_enforced _ _ _ _ Hrej) as Ha.
  rewrite check_log_same, Hrej, app_nil_r by done.
  apply (filter_full _ (log_of st c)).
  change (len (log_of st c) ≤ len (recent now (log_of st c))).
  destruct (decide ((check_rate_limit cfg now c st).1 = true)) as [Hok|Hno];
    [congruence|].
  rewrite check_admits_iff in Hno by done.
  pose proof (len_nonneg (recent now (log_of st c))).
  pose proof (len_recent_le now (log_of st c)). lia.
Qed.

(** C2: in every storage the process can be in (reached from the empty
    storage by any sequence of calls), a call that returns [False] leaves
    the log of its identity as it was. *)
Theorem C2_rejection_leaves_log_unchanged cfg calls now c :
  (check_rate_limit cfg now c (run_checks cfg calls ∅)).1 = false →
  log_of (check_rate_limit cfg now c (run_checks cfg calls ∅)).2 c
  = log_of (run_checks cfg calls ∅) c.
Proof.
  intros Hrej. apply rejection_keeps_short_log; [|done].
  apply log_length; [by eapply rejected_enforced|].
  rewrite log_of_empty. change (len (@nil datetime)) with 0. lia.
Qed.

Lemma C2_witness :
  let cfg := mkConfig "secret1" true 2 in
  let calls := [("default", 1000000); ("default", 2000000)] in
  log_of (check_rate_limit cfg 3000000 "default" (run_checks cfg calls ∅)).2
    "default"
  = log_of (run_checks cfg calls ∅) "default".
Proof.
  apply (C2_rejection_leaves_log_unchanged
           (mkConfig "secret1" true 2)
           [("default", 1000000); ("default", 2000000)] 3000000 "default").
  vm_compute. reflexivity.
Defined.

(** After a check at [now], the log of its identity holds only times
    later than the start of the window, and none later than [now] when
    nothing later was stored before. *)
Lemma check_log_bounds cfg now c st t :
  REQUIRE_AUTH cfg = true →
  Forall (λ s, s ≤ now) (log_of st c) →
  t ∈ log_of (check_rate_limit cfg now c st).2 c →
  datetime_sub now (timedelta RATE_LIMIT_WINDOW) < t ∧ t ≤ now.
Proof.
  intros Ha Hpast. rewrite check_log_same by done.
  rewrite elem_of_app. intros [Ht|Ht].
  - unfold recent in Ht. apply list_elem_of_filter in Ht as [Hlo Hin].
    split; [done|]. rewrite Forall_forall in Hpast. by apply Hpast.
  - destruct (check_rate_limit cfg now c st).1;
      [|by apply not_elem_of_nil in Ht].
    apply list_elem_of_singleton in Ht. subst t.
    pose proof window_pos. unfold datetime_sub. lia.
Qed.

Lemma check_admitted_length cfg now c st :
  REQUIRE_AUTH cfg = true →
  (check_rate_limit cfg now c st).1 = true →
  len (log_of (check_rate_limit cfg now c st).2 c) ≤ RATE_LIMIT cfg.
Proof.
  intros Ha Hok. rewrite check_log_same, Hok, len_app by done.
  apply check_admits_iff in Hok; [|done]. change (len [now]) with 1. lia.
Qed.

(** C8: with enforcement enabled, after any call at time [now] (the clock
    having read no later time before), every time in the log of the
    call's identity lies in [[now - window, now]]; and when the call
    returned [True] the log is no longer than [RATE_LIMIT]. *)
Theorem C8_log_within_window_and_quota cfg calls now c :
  REQUIRE_AUTH cfg = true →
  Forall (λ t, t ≤ now) (calls.*2) →
  (∀ t, t ∈ log_of (check_rate_limit cfg now c (run_checks cfg calls ∅)).2 c →
        datetime_sub now (timedelta RATE_LIMIT_WINDOW) ≤ t ∧ t ≤ now)
  ∧ ((check_rate_limit cfg now c (run_checks cfg calls ∅)).1 = true →
     len (log_of (check_rate_limit cfg now c (run_checks cfg calls ∅)).2 c)
     ≤ RATE_LIMIT cfg).
Proof.
  intros Ha Hclock. split; [|by apply check_admitted_length].
  intros t Ht. apply check_log_bounds in Ht as [Hlo Hhi]; [lia|done|].
  apply Forall_forall. intros s Hs.
  apply (log_times cfg Ha) in Hs as [Hs|Hs].
  - rewrite log_of_empty in Hs. by apply not_elem_of_nil in Hs.
  - rewrite Forall_forall in Hclock. by apply Hclock.
Qed.

Lemma C8_witness :
  let cfg := mkConfig "secret1" true 2 in
  let calls := [("default", 1000000); ("default", 2000000)] in
  (∀ t, t ∈ log_of (check_rate_limit cfg 61500000 "default"
                       (run_checks cfg calls ∅)).2 "default" →
        datetime_sub 61500000 (timedelta RATE_LIMIT_WINDOW) ≤ t ∧ t ≤ 61500000)
  ∧ ((check_rate_limit cfg 61500000 "default" (run_checks cfg calls ∅)).1
       = true →
     len (log_of (check_rate_limit cfg 61500000 "default"
                    (run_checks cfg calls ∅)).2 "default")
     ≤ RATE_LIMIT cfg).
Proof.
  apply (C8_log_within_window_and_quota
           (mkConfig "secret1" true 2)
           [("default", 1000000); ("default", 2000000)] 61500000 "default").
  - reflexivity.
  - simpl. repeat constructor; lia.
Defined.

(** Counting with a weaker predicate counts at least as much, and more
    when some element tells the two apart. *)
Lemma len_filter_mono {A} (P P' : A → Prop)
    `{!∀ x, Decision (P x), !∀ x, Decision (P' x)} (l : list A) :
  (∀ y, y ∈ l → P y → P' y) → len (filter P l) ≤ len (filter P' l).
Proof.
  induction l as [|y l IH]; intros Himp; [done|].
  assert (len (filter P l) ≤ len (filter P' l)) as Hle.
  { apply IH. intros z Hz. apply Himp. by right. }
  rewrite !filter_cons.
  destruct (decide (P y)) as [Hy|Hy], (decide (P' y)) as [Hy'|Hy'];
    unfold len in *; simpl; try lia.
  exfalso. apply Hy'. apply Himp; [left|done].
Qed.

Lemma len_filter_strict {A} (P P' : A → Prop)
    `{!∀ x, Decision (P x), !∀ x, Decision (P' x)} (l : list A) (x : A) :
  (∀ y, y ∈ l → P y → P' y) → x ∈ l → P' x → ¬ P x →
  len (filter P l) < len (filter P' l).
Proof.
  induction l as [|y l IH]; intros Himp Hx HP' HnP.
  { by apply not_elem_of_nil in Hx. }
  assert (∀ z, z ∈ l → P z → P' z) as Himp'.
  { intros z Hz. apply Himp. by right. }
  pose proof (len_filter_mono P P' l Himp') as Hle.
  rewrite !filter_cons. apply elem_of_cons in Hx as [<-|Hx].
  - rewrite decide_False, decide_True by done. unfold len in *. simpl. lia.
  - specialize (IH Himp' Hx HP' HnP).
    destruct (decide (P y)) as [Hy|Hy], (decide (P' y)) as [Hy'|Hy'];
      unfold len in *; simpl; try lia.
    exfalso. apply Hy'. apply Himp; [left|done].
Qed.

Section Guarantee.
Context (cfg : Config) (Hauth : REQUIRE_AUTH cfg = true).

(** A check made no earlier than every call before it is decided by the
    number of admitted calls of its identity inside its window. *)
Lemma check_after_history c calls now :
  Forall (λ t, t ≤ now) (calls.*2) →
  (check_rate_limit cfg now c (run_checks cfg calls ∅)).1 = true ↔
  len (in_window now (admitted cfg c calls ∅)) < RATE_LIMIT cfg.
Proof.
  intros Hclock. rewrite check_admits_iff by done.
  rewrite (log_sync cfg Hauth) by done.
  rewrite log_of_empty, app_nil_l, recent_as_window; [done|].
  by apply admitted_Forall.
Qed.

(** Over any history with a clock that never runs backwards, no window
    holds more admitted calls of one identity than the quota. *)
Lemma window_bound c calls t :
  0 ≤ RATE_LIMIT cfg →
  clock_monotone calls →
  len (in_window t (admitted cfg c calls ∅)) ≤ RATE_LIMIT cfg.
Proof.
  intros Hq Hmono.
  pose proof (window_bound_from cfg Hauth c calls ∅ Hmono) as Hb.
  rewrite log_of_empty in Hb. simpl in Hb. apply Hb.
  intros t0. done.
Qed.

(** Once the window has passed an admitted time [t1], with nothing
    admitted since it passed, the next check is admitted. *)
Lemma readmitted c calls t1 now :
  0 ≤ RATE_LIMIT cfg →
  clock_monotone calls →
  Forall (λ t, t ≤ now) (calls.*2) →
  t1 ∈ admitted cfg c calls ∅ →
  Forall (λ t, t < t1 + timedelta RATE_LIMIT_WINDOW) (admitted cfg c calls ∅) →
  t1 + timedelta RATE_LIMIT_WINDOW ≤ now →
  (check_rate_limit cfg now c (run_checks cfg calls ∅)).1 = true.
Proof.
  intros Hq Hmono Hclock Ht1 Hnone Hnow.
  apply check_after_history; [done|].
  pose proof window_pos as Hw.
  eapply Z.lt_le_trans;
    [|apply (window_bound c calls (t1 + timedelta RATE_LIMIT_WINDOW - 1));
      done].
  unfold in_window. apply (len_filter_strict _ _ _ t1); try done.
  - intros s Hs. rewrite Forall_forall in Hnone. specialize (Hnone s Hs).
    unfold datetime_sub. lia.
  - unfold datetime_sub. lia.
  - unfold datetime_sub. lia.
Qed.
End Guarantee.

Lemma sublist_filter_mono {A} (P : A → Prop) `{!∀ x, Decision (P x)}
    (l k : list A) :
  l `sublist_of` k → filter P l `sublist_of` filter P k.
Proof.
  induction 1 as [|x l k _ IH|x l k _ IH]; [done| |].
  - rewrite !filter_cons. destruct (decide (P x)); [by constructor|done].
  - rewrite filter_cons. destruct (decide (P x)); [by constructor|done].
Qed.

Lemma filter_Forall_id {A} (P : A → Prop) `{!∀ x, Decision (P x)}
    (l : list A) :
  Forall P l → filter P l = l.
Proof.
  induction 1 as [|x l Hx _ IH]; [done|].
  by rewrite filter_cons_True, IH.
Qed.

(** A check that finds a full quota of admitted calls less than a window
    old is rejected. *)
Lemma over_quota_rejected cfg c calls now ts :
  REQUIRE_AUTH cfg = true →
  Forall (λ t, t ≤ now) (calls.*2) →
  ts `sublist_of` admitted cfg c calls ∅ →
  len ts = RATE_LIMIT cfg →
  Forall (λ t, now - t < timedelta RATE_LIMIT_WINDOW) ts →
  (check_rate_limit cfg now c (run_checks cfg calls ∅)).1 = false.
Proof.
  intros Ha Hclock Hsub Hlen Hspan.
  apply not_true_is_false. rewrite check_after_history by done.
  assert (Forall (λ s, datetime_sub now (timedelta RATE_LIMIT_WINDOW) < s
                       ∧ s ≤ now) ts) as Hin.
  { apply Forall_forall. intros s Hs. split.
    - rewrite Forall_forall in Hspan. specialize (Hspan s Hs).
      unfold datetime_sub. lia.
    - pose proof (admitted_Forall cfg c calls ∅ _ Hclock) as Hadm.
      rewrite Forall_forall in Hadm. apply Hadm.
      by eapply elem_of_sublist. }
  pose proof (sublist_filter_mono
    (λ s, datetime_sub now (timedelta RATE_LIMIT_WINDOW) < s ∧ s ≤ now)
    _ _ Hsub) as Hfs.
  rewrite (filter_Forall_id _ ts Hin) in Hfs.
  apply sublist_length in Hfs.
  change (length ts ≤ length (in_window now (admitted cfg c calls ∅)))%nat
    in Hfs.
  unfold len in *. lia.
Qed.

(** C1: with enforcement enabled, quota [RATE_LIMIT] and a clock that
    never runs backwards, for every identity: (1) once [RATE_LIMIT] of
    its calls have been admitted less than a window before a check, that
    check is rejected; (2) once the window has passed an admitted time,
    with nothing admitted since it passed, the next check is admitted;
    (3) no trailing window holds more than [RATE_LIMIT] admitted calls. *)
Theorem C1_sliding_window_quota cfg calls c :
  REQUIRE_AUTH cfg = true →
  0 ≤ RATE_LIMIT cfg →
  clock_monotone calls →
  (∀ now ts,
      Forall (λ t, t ≤ now) (calls.*2) →
      ts `sublist_of` admitted cfg c calls ∅ →
      len ts = RATE_LIMIT cfg →
      Forall (λ t, now - t < timedelta RATE_LIMIT_WINDOW) ts →
      (check_rate_limit cfg now c (run_checks cfg calls ∅)).1 = false)
  ∧ (∀ now t1,
      Forall (λ t, t ≤ now) (calls.*2) →
      t1 ∈ admitted cfg c calls ∅ →
      Forall (λ t, t < t1 + timedelta RATE_LIMIT_WINDOW)
             (admitted cfg c calls ∅) →
      t1 + timedelta RATE_LIMIT_WINDOW < now →
      (check_rate_limit cfg now c (run_checks cfg calls ∅)).1 = true)
  ∧ (∀ t, len (in_window t (admitted cfg c calls ∅)) ≤ RATE_LIMIT cfg).
Proof.
  intros Ha Hq Hmono. split; [|split].
  - intros now ts. by apply over_quota_rejected.
  - intros now t1 Hclock Ht1 Hnone Hnow.
    apply (readmitted cfg Ha c calls t1 now); try done. lia.
  - intros t. by apply window_bound.
Qed.

Lemma C1_witness :
  let cfg := mkConfig "secret1" true 2 in
  let calls := [("default", 1000000); ("default", 2000000)] in
  let c := "default" in
  (∀ now ts,
      Forall (λ t, t ≤ now) (calls.*2) →
      ts `sublist_of` admitted cfg c calls ∅ →
      len ts = RATE_LIMIT cfg →
      Forall (λ t, now - t < timedelta RATE_LIMIT_WINDOW) ts →
      (check_rate_limit cfg now c (run_checks cfg calls ∅)).1 = false)
  ∧ (∀ now t1,
      Forall (λ t, t ≤ now) (calls.*2) →
      t1 ∈ admitted cfg c calls ∅ →
      Forall (λ t, t < t1 + timedelta RATE_LIMIT_WINDOW)
             (admitted cfg c calls ∅) →
      t1 + timedelta RATE_LIMIT_WINDOW < now →
      (check_rate_limit cfg now c (run_checks cfg calls ∅)).1 = true)
  ∧ (∀ t, len (in_window t (admitted cfg c calls ∅)) ≤ RATE_LIMIT cfg).
Proof.
  apply (C1_sliding_window_quota
           (mkConfig "secret1" true 2)
           [("default", 1000000); ("default", 2000000)] "default").
  - reflexivity.
  - simpl. lia.
  - unfold clock_monotone. simpl. repeat constructor. lia.
Defined.

(** The three calls of a burst and a fourth after the window, with quota
    two: admitted, admitted, rejected, admitted. *)
Example scenario_D :
  let cfg := mkConfig "secret1" true 2 in
  let calls := [("default", 1000000); ("default", 2000000);
                ("default", 3000000); ("default", 62000000)] in
  admitted cfg "default" calls ∅ = [1000000; 2000000; 62000000]
  ∧ log_of (run_checks cfg calls ∅) "default" = [62000000].
Proof. vm_compute. done. Qed.

(** ** The tools and the start-up *)

Section Delegation.
Context {PyFloat PyObject PyException Exchange : Type}.
Context (py_dict : list (string * string) → PyObject).
Context (service : ServiceCall PyFloat → Exchange →
                   Outcome PyObject PyException * Exchange).
Context (cfg : Config).

(** The body shared by the tools: the limiter is run on the storage, and
    its answer selects between the error payload and the service call. *)
Lemma guarded_call_eq (sc : ServiceCall PyFloat) now
    (w : World PyFloat Exchange) :
  bind (on_storage (check_rate_limit cfg now "default"))
       (λ ok, if negb ok then ret (Returns (rate_limit_exceeded py_dict))
              else await_service service sc) w
  = let '(ok, st') :=
      check_rate_limit cfg now "default" (rate_limit_storage w) in
    if ok then
      let '(r, e') := service sc (exchange w) in
      (r, mkWorld st' e' (service_calls w ++ [sc]))
    else
      (Returns (py_dict [("error", "Rate limit exceeded")]),
       mkWorld st' (exchange w) (service_calls w)).
Proof.
  unfold bind, on_storage.
  destruct (check_rate_limit cfg now "default" (rate_limit_storage w))
    as [[] st']; simpl; [|done].
  unfold await_service. simpl. by destruct (service sc (exchange w)).
Qed.

(** C9: every tool first runs the rate limiter for the identity
    ["default"]; when the limiter rejects, the tool returns
    [{"error": "Rate limit exceeded"}] and the service is not called (the
    record of service calls and the exchange are as before); when it
    admits, the tool makes exactly the service call of the same name
    with the caller's arguments and returns its outcome as it is. *)
Theorem C9_tool_checks_limit_then_delegates (tc : ToolCall PyFloat) now
    (w : World PyFloat Exchange) :
  call_tool py_dict service cfg tc now w
  = let '(ok, st') :=
      check_rate_limit cfg now "default" (rate_limit_storage w) in
    if ok then
      let '(r, e') := service (delegate tc) (exchange w) in
      (r, mkWorld st' e' (service_calls w ++ [delegate tc]))
    else
      (Returns (py_dict [("error", "Rate limit exceeded")]),
       mkWorld st' (exchange w) (service_calls w)).
Proof. destruct tc; apply guarded_call_eq. Qed.

(** The limiter does not read the secret. *)
Lemma check_rate_limit_ignores_key key key' enforce quota now c st :
  check_rate_limit (mkConfig key enforce quota) now c st
  = check_rate_limit (mkConfig key' enforce quota) now c st.
Proof. by rewrite !check_rate_limit_eq. Qed.

Lemma serve_stdio_eq (tc : ToolCall PyFloat) now
    (w : World PyFloat Exchange) :
  serve py_dict service cfg StdioServer (StdioMessage tc) now w
  = let '(ok, st') :=
      check_rate_limit cfg now "default" (rate_limit_storage w) in
    if ok then
      let '(r, e') := service (delegate tc) (exchange w) in
      (Some (ToolReply r), mkWorld st' e' (service_calls w ++ [delegate tc]))
    else
      (Some (ToolReply (Returns (py_dict [("error", "Rate limit exceeded")]))),
       mkWorld st' (exchange w) (service_calls w)).
Proof.
  unfold serve, bind at 1.
  replace (call_tool py_dict service cfg tc now w) with
    (let '(ok, st') :=
       check_rate_limit cfg now "default" (rate_limit_storage w) in
     if ok then
       let '(r, e') := service (delegate tc) (exchange w) in
       (r, mkWorld st' e' (service_calls w ++ [delegate tc]))
     else
       (Returns (py_dict [("error", "Rate limit exceeded")]),
        mkWorld st' (exchange w) (service_calls w)))
    by (destruct tc; symmetry; apply guarded_call_eq).
  destruct (check_rate_limit cfg now "default" (rate_limit_storage w))
    as [[] st']; [|done].
  by destruct (service (delegate tc) (exchange w)).
Qed.

End Delegation.

Lemma main_stdio s :
  init_service_ok s = true → argv s !! 1%nat = Some "stdio" →
  main s = Some StdioServer.
Proof.
  intros Hi Ha. unfold main. rewrite Hi. simpl.
  rewrite (bool_decide_eq_true_2 (argv s !! 1%nat = Some "stdio")) by done.
  rewrite bool_decide_eq_true_2; [done|].
  apply lookup_lt_Some in Ha. unfold len. lia.
Qed.

Lemma main_middleware s srv :
  main s = Some srv →
  AuthMiddleware ∈ installed_middleware srv ↔ argv s !! 1%nat ≠ Some "stdio".
Proof.
  unfold main. destruct (init_service_ok s); simpl; [|done].
  destruct (decide (1 < len (argv s))) as [Hlen|Hlen];
    [rewrite (bool_decide_eq_true_2 _ Hlen)
    |rewrite (bool_decide_eq_false_2 _ Hlen)]; simpl.
  - destruct (decide (argv s !! 1%nat = Some "stdio")) as [Harg|Harg];
      [rewrite (bool_decide_eq_true_2 _ Harg)
      |rewrite (bool_decide_eq_false_2 _ Harg)].
    + intros [= <-]. simpl. split; [by intros ?%not_elem_of_nil|done].
    + destruct (PORT s); intros [= <-]. simpl. split; [done|]. intros _. left.
  - destruct (PORT s); intros [= <-]. simpl. split; [|intros _; left].
    intros _ Harg. apply lookup_lt_Some in Harg. unfold len in Hlen. lia.
Qed.

(** C10: started with ["stdio"] as first argument (and the service
    initialised), [main] runs the stdio server, on which no middleware is
    installed; [AuthMiddleware] is installed exactly on the servers [main]
    starts otherwise.  A tool invocation served in stdio mode is decided
    by the rate limiter alone: it never gets an HTTP answer, it gets the
    error payload when the limiter rejects and the outcome of the service
    call when the limiter admits, and it is served the same whatever
    [API_KEY] is. *)
Theorem C10_stdio_mode_has_no_api_key_check
    {PyFloat PyObject PyException Exchange : Type}
    (py_dict : list (string * string) → PyObject)
    (service : ServiceCall PyFloat → Exchange →
               Outcome PyObject PyException * Exchange)
    (s : Startup) :
  init_service_ok s = true →
  argv s !! 1%nat = Some "stdio" →
  main s = Some StdioServer
  ∧ installed_middleware StdioServer = []
  ∧ (∀ s' srv, main s' = Some srv →
       AuthMiddleware ∈ installed_middleware srv
       ↔ argv s' !! 1%nat ≠ Some "stdio")
  ∧ (∀ cfg (tc : ToolCall PyFloat) now (w : World PyFloat Exchange),
       serve py_dict service cfg StdioServer (StdioMessage tc) now w
       = let '(ok, st') :=
           check_rate_limit cfg now "default" (rate_limit_storage w) in
         if ok then
           let '(r, e') := service (delegate tc) (exchange w) in
           (Some (ToolReply r),
            mkWorld st' e' (service_calls w ++ [delegate tc]))
         else
           (Some (ToolReply
                    (Returns (py_dict [("error", "Rate limit exceeded")]))),
            mkWorld st' (exchange w) (service_calls w)))
  ∧ (∀ key key' enforce quota (tc : ToolCall PyFloat) now
       (w : World PyFloat Exchange),
       serve py_dict service (mkConfig key enforce quota)
             StdioServer (StdioMessage tc) now w
       = serve py_dict service (mkConfig key' enforce quota)
               StdioServer (StdioMessage tc) now w).
Proof.
  intros Hi Ha. split; [by apply main_stdio|]. split; [done|].
  split; [apply main_middleware|]. split.
  - intros cfg tc now w. apply serve_stdio_eq.
  - intros key key' enforce quota tc now w. rewrite !serve_stdio_eq.
    by rewrite (check_rate_limit_ignores_key key key').
Qed.

Lemma C10_witness :
  let py_dict := λ d : list (string * string), d in
  let service := λ (_ : ServiceCall Z) (e : unit),
                   (@Returns (list (string * string)) string [], e) in
  let s := mkStartup ["main_secure.py"; "stdio"] true (Some 8080) "0.0.0.0" in
  main s = Some StdioServer
  ∧ installed_middleware StdioServer = []
  ∧ (∀ s' srv, main s' = Some srv →
       AuthMiddleware ∈ installed_middleware srv
       ↔ argv s' !! 1%nat ≠ Some "stdio")
  ∧ (∀ cfg (tc : ToolCall Z) now (w : World Z unit),
       serve py_dict service cfg StdioServer (StdioMessage tc) now w
       = let '(ok, st') :=
           check_rate_limit cfg now "default" (rate_limit_storage w) in
         if ok then
           let '(r, e') := service (delegate tc) (exchange w) in
           (Some (ToolReply r),
            mkWorld st' e' (service_calls w ++ [delegate tc]))
         else
           (Some (ToolReply
                    (Returns (py_dict [("error", "Rate limit exceeded")]))),
            mkWorld st' (exchange w) (service_calls w)))
  ∧ (∀ key key' enforce quota (tc : ToolCall Z) now (w : World Z unit),
       serve py_dict service (mkConfig key enforce quota)
             StdioServer (StdioMessage tc) now w
       = serve py_dict service (mkConfig key' enforce quota)
               StdioServer (StdioMessage tc) now w).
Proof.
  apply (C10_stdio_mode_has_no_api_key_check
           (λ d : list (string * string), d)
           (λ (_ : ServiceCall Z) (e : unit),
              (@Returns (list (string * string)) string [], e))
           (mkStartup ["main_secure.py"; "stdio"] true (Some 8080) "0.0.0.0"));
    reflexivity.
Defined.

(** Over HTTP the same invocation with a wrong key is stopped by the
    middleware before any tool runs. *)
Example http_wrong_key_stopped :
  let service := λ (_ : ServiceCall Z) (e : unit),
                   (@Returns (list (string * string)) string [], e) in
  let w := @mkWorld Z unit ∅ tt [] in
  serve (λ d, d) service (mkConfig "secret1" true 60)
        (HttpServer [AuthMiddleware] "0.0.0.0" 8080)
        (HttpRequest (mkRequest "/mcp" (Some "wrong") None)
                     tool_get_account_balance)
        1000000 w
  = (Some (HttpReply
             (mkJSONResponse 401
                [("error", "Unauthorized - Invalid API Key")])), w).
Proof. reflexivity. Qed.

(** ** More about the rate limiter *)

(** What a check answers and what it leaves in the log of its identity
    depend on the storage through that log only. *)
Lemma check_extensional cfg now c st st' :
  log_of st c = log_of st' c →
  (check_rate_limit cfg now c st).1 = (check_rate_limit cfg now c st').1
  ∧ log_of (check_rate_limit cfg now c st).2 c
    = log_of (check_rate_limit cfg now c st').2 c.
Proof.
  intros Heq. rewrite !check_rate_limit_eq, <- Heq.
  destruct (REQUIRE_AUTH cfg); [|done].
  destruct (_ <=? _); simpl; unfold log_of; by rewrite !lookup_insert_eq.
Qed.

(** X1: a check made no earlier than every call before it is rejected
    exactly when [RATE_LIMIT] or more calls of its identity were admitted
    inside the window that trails it. *)
Theorem X1_rejected_iff_window_full cfg calls now c :
  REQUIRE_AUTH cfg = true →
  Forall (λ t, t ≤ now) (calls.*2) →
  (check_rate_limit cfg now c (run_checks cfg calls ∅)).1 = false ↔
  RATE_LIMIT cfg ≤ len (in_window now (admitted cfg c calls ∅)).
Proof.
  intros Ha Hclock.
  pose proof (check_after_history cfg Ha c calls now Hclock) as Hiff.
  destruct (check_rate_limit cfg now c (run_checks cfg calls ∅)).1.
  - split; [done|]. intros Hfull.
    assert (true = true) as Ht by done. apply Hiff in Ht. lia.
  - split; [|done]. intros _.
    destruct (decide (RATE_LIMIT cfg
                      ≤ len (in_window now (admitted cfg c calls ∅))));
      [done|].
    assert (false = true) as Hf; [apply Hiff; lia|done].
Qed.

Lemma X1_witness :
  let cfg := mkConfig "secret1" true 2 in
  let calls := [("default", 1000000); ("default", 2000000)] in
  (check_rate_limit cfg 3000000 "default" (run_checks cfg calls ∅)).1 = false
  ↔ RATE_LIMIT cfg ≤ len (in_window 3000000 (admitted cfg "default" calls ∅)).
Proof.
  apply (X1_rejected_iff_window_full
           (mkConfig "secret1" true 2)
           [("default", 1000000); ("default", 2000000)] 3000000 "default").
  - reflexivity.
  - simpl. repeat constructor; lia.
Defined.

(** The calls of one identity. *)
Lemma own_calls_cons_same c now (rest : list call) :
  filter (λ e : call, e.1 = c) ((c, now) :: rest)
  = (c, now) :: filter (λ e : call, e.1 = c) rest.
Proof. by rewrite filter_cons_True. Qed.

Lemma own_calls_cons_other c c' now (rest : list call) :
  c' ≠ c →
  filter (λ e : call, e.1 = c) ((c', now) :: rest)
  = filter (λ e : call, e.1 = c) rest.
Proof. intros Hne. by rewrite filter_cons_False. Qed.

Lemma isolation_from cfg c calls st st' :
  log_of st c = log_of st' c →
  admitted cfg c calls st
  = admitted cfg c (filter (λ e : call, e.1 = c) calls) st'
  ∧ log_of (run_checks cfg calls st) c
    = log_of (run_checks cfg (filter (λ e : call, e.1 = c) calls) st') c.
Proof.
  revert st st'. induction calls as [|[c' now] rest IH]; intros st st' Heq.
  { done. }
  destruct (decide (c' = c)) as [->|Hne].
  - rewrite own_calls_cons_same. simpl.
    destruct (check_extensional cfg now c st st' Heq) as [Hok Hlog].
    destruct (check_rate_limit cfg now c st) as [ok st1].
    destruct (check_rate_limit cfg now c st') as [ok' st1'].
    simpl in *. subst ok'.
    destruct (IH st1 st1' Hlog) as [Hadm Hrun]. by rewrite Hadm, Hrun.
  - rewrite own_calls_cons_other by done. simpl.
    pose proof (check_log_other cfg now c c' st Hne) as Hlog.
    destruct (check_rate_limit cfg now c' st) as [ok st1]. simpl in *.
    rewrite bool_decide_eq_false_2, andb_false_r by done. simpl.
    apply IH. by rewrite Hlog.
Qed.

(** X2: identities do not interfere.  Which calls of an identity are
    admitted, and the log it ends with, are the same as if the calls of
    all other identities had never been made. *)
Theorem X2_identities_isolated cfg c calls :
  admitted cfg c calls ∅
  = admitted cfg c (filter (λ e : call, e.1 = c) calls) ∅
  ∧ log_of (run_checks cfg calls ∅) c
    = log_of (run_checks cfg (filter (λ e : call, e.1 = c) calls) ∅) c.
Proof. by apply isolation_from. Qed.

Lemma own_calls_monotone c (calls : list call) :
  clock_monotone calls →
  clock_monotone (filter (λ e : call, e.1 = c) calls).
Proof.
  unfold clock_monotone. induction calls as [|[c' now] rest IH]; [done|].
  rewrite fmap_cons. intros [Hall Hrest]%StronglySorted_cons.
  rewrite filter_cons. destruct (decide _); [|by apply IH].
  rewrite fmap_cons. apply StronglySorted_cons. split; [|by apply IH].
  rewrite Forall_forall in Hall. apply Forall_forall. intros s Hs.
  apply Hall. apply list_elem_of_fmap in Hs as [e0 [-> He]].
  apply list_elem_of_fmap. exists e0. split; [done|].
  by apply list_elem_of_filter in He as [_ ?].
Qed.

Lemma recent_now_self t : recent t [t] = [t].
Proof.
  unfold recent. rewrite filter_cons_True; [done|].
  pose proof window_pos. unfold datetime_sub. lia.
Qed.

(** X3: with enforcement enabled and a clock that never runs backwards,
    the log of an identity is exactly the list of its admitted calls that
    are less than one window older than its latest call. *)
Theorem X3_log_is_recent_admitted cfg c calls t :
  REQUIRE_AUTH cfg = true →
  clock_monotone calls →
  last (filter (λ e : call, e.1 = c) calls) = Some (c, t) →
  log_of (run_checks cfg calls ∅) c = recent t (admitted cfg c calls ∅).
Proof.
  intros Ha Hmono Hlast.
  destruct (isolation_from cfg c calls ∅ ∅ eq_refl) as [-> ->].
  apply (own_calls_monotone c) in Hmono.
  apply last_Some in Hlast as [own Hown]. rewrite Hown in *.
  unfold clock_monotone in Hmono. rewrite fmap_app in Hmono.
  apply StronglySorted_app in Hmono as (Hbefore & _ & _).
  assert (Forall (λ s, s ≤ t) (own.*2)) as Hclock.
  { apply Forall_forall. intros s Hs. apply Hbefore; [done|]. simpl. left. }
  rewrite run_checks_app, admitted_app. simpl.
  pose proof (check_log_same cfg t c (run_checks cfg own ∅) Ha) as Hlog.
  destruct (check_rate_limit cfg t c (run_checks cfg own ∅)) as [ok st1].
  simpl in *. rewrite Hlog.
  rewrite bool_decide_eq_true_2, andb_true_r, app_nil_r by done.
  rewrite recent_app, (log_sync cfg Ha) by done.
  rewrite log_of_empty, app_nil_l. f_equal.
  destruct ok; [by rewrite recent_now_self|done].
Qed.

Lemma X3_witness :
  let cfg := mkConfig "secret1" true 2 in
  let calls := [("default", 1000000); ("other", 2000000);
                ("default", 61500000)] in
  log_of (run_checks cfg calls ∅) "default"
  = recent 61500000 (admitted cfg "default" calls ∅).
Proof.
  apply (X3_log_is_recent_admitted
           (mkConfig "secret1" true 2) "default"
           [("default", 1000000); ("other", 2000000); ("default", 61500000)]
           61500000).
  - reflexivity.
  - unfold clock_monotone. simpl. repeat constructor; lia.
  - reflexivity.
Defined.

Lemma check_dom cfg now c st :
  REQUIRE_AUTH cfg = true →
  dom (check_rate_limit cfg now c st).2 = {[c]} ∪ dom st.
Proof.
  intros Ha. rewrite check_rate_limit_eq, Ha.
  destruct (_ <=? _); simpl; apply dom_insert_L.
Qed.

(** X4: with enforcement enabled the storage has an entry for exactly the
    identities it started with and those ever checked; checks never
    remove an entry. *)
Theorem X4_entries_are_never_removed cfg calls st :
  REQUIRE_AUTH cfg = true →
  dom (run_checks cfg calls st) = dom st ∪ list_to_set (calls.*1).
Proof.
  intros Ha. revert st. induction calls as [|[c now] rest IH]; intros st.
  - simpl. by rewrite (right_id_L ∅ (∪)).
  - simpl. rewrite IH, check_dom by done.
    rewrite (comm_L (∪) {[c]} (dom st)). by rewrite (assoc_L (∪)).
Qed.

Lemma X4_witness :
  let calls : list call := [("a", 1000000); ("b", 2000000); ("a", 3000000)] in
  dom (run_checks (mkConfig "secret1" true 1) calls ∅)
  = dom (∅ : gmap string (list datetime)) ∪ list_to_set (calls.*1).
Proof.
  apply (X4_entries_are_never_removed
           (mkConfig "secret1" true 1)
           [("a", 1000000); ("b", 2000000); ("a", 3000000)] ∅).
  reflexivity.
Defined.

(** X5: with enforcement enabled and a quota of zero or less, no call is
    ever admitted, from whatever storage. *)
Theorem X5_nonpositive_quota_admits_nothing cfg c calls st :
  REQUIRE_AUTH cfg = true →
  RATE_LIMIT cfg ≤ 0 →
  admitted cfg c calls st = [].
Proof.
  intros Ha Hq. revert st. induction calls as [|[c' now] rest IH]; intros st.
  { done. }
  simpl.
  assert ((check_rate_limit cfg now c' st).1 = false) as Hrej.
  { apply not_true_is_false. rewrite check_admits_iff by done.
    pose proof (len_nonneg (recent now (log_of st c'))). lia. }
  destruct (check_rate_limit cfg now c' st) as [ok st1]. simpl in Hrej.
  subst ok. simpl. apply IH.
Qed.

Lemma X5_witness :
  admitted (mkConfig "secret1" true 0) "default"
    [("default", 1000000); ("default", 90000000)] ∅ = [].
Proof.
  apply (X5_nonpositive_quota_admits_nothing
           (mkConfig "secret1" true 0) "default"
           [("default", 1000000); ("default", 90000000)] ∅).
  - reflexivity.
  - simpl. lia.
Defined.

Lemma recent_all_old now l :
  Forall (λ s, s + timedelta RATE_LIMIT_WINDOW ≤ now) l → recent now l = [].
Proof.
  induction 1 as [|s l Hs _ IH]; [done|].
  unfold recent in *. rewrite filter_cons_False; [done|].
  unfold datetime_sub. lia.
Qed.

(** X6: with enforcement enabled and a positive quota, a check that finds
    only times a full window old or older in the log of its identity (or
    none at all) is admitted, and leaves the log holding its own time
    alone. *)
Theorem X6_admitted_after_quiet_window cfg now c st :
  REQUIRE_AUTH cfg = true →
  0 < RATE_LIMIT cfg →
  Forall (λ s, s + timedelta RATE_LIMIT_WINDOW ≤ now) (log_of st c) →
  (check_rate_limit cfg now c st).1 = true
  ∧ log_of (check_rate_limit cfg now c st).2 c = [now].
Proof.
  intros Ha Hq Hold.
  assert ((check_rate_limit cfg now c st).1 = true) as Hok.
  { apply check_admits_iff; [done|]. by rewrite recent_all_old. }
  split; [done|]. by rewrite check_log_same, Hok, recent_all_old.
Qed.

Lemma X6_witness :
  let cfg := mkConfig "secret1" true 1 in
  let st : gmap string (list datetime) := {["default" := [1000000]]} in
  (check_rate_limit cfg 61000000 "default" st).1 = true
  ∧ log_of (check_rate_limit cfg 61000000 "default" st).2 "default"
    = [61000000].
Proof.
  apply (X6_admitted_after_quiet_window
           (mkConfig "secret1" true 1) 61000000 "default"
           {["default" := [1000000]]}).
  - reflexivity.
  - simpl. lia.
  - unfold log_of. rewrite lookup_singleton_eq. simpl.
    repeat constructor. unfold timedelta, RATE_LIMIT_WINDOW. lia.
Defined.

(** Storages that show the same log for every identity answer every
    history alike. *)
Lemma history_extensional cfg c calls st st' :
  (∀ d, log_of st d = log_of st' d) →
  admitted cfg c calls st = admitted cfg c calls st'
  ∧ ∀ d, log_of (run_checks cfg calls st) d
         = log_of (run_checks cfg calls st') d.
Proof.
  revert st st'. induction calls as [|[c' now] rest IH]; intros st st' Heq.
  { done. }
  simpl.
  destruct (check_extensional cfg now c' st st' (Heq c')) as [Hok Hlog].
  assert (∀ d, log_of (check_rate_limit cfg now c' st).2 d
               = log_of (check_rate_limit cfg now c' st').2 d) as Hall.
  { intros d. destruct (decide (c' = d)) as [<-|Hne]; [done|].
    by rewrite !check_log_other. }
  destruct (check_rate_limit cfg now c' st) as [ok st1].
  destruct (check_rate_limit cfg now c' st') as [ok' st1'].
  simpl in *. subst ok'.
  destruct (IH st1 st1' Hall) as [Hadm Hrun]. by rewrite Hadm.
Qed.

(** X7: a rejected call leaves no trace.  Striking a call that was
    rejected out of a history changes neither which calls are admitted
    nor the log any identity ends with. *)
Theorem X7_rejected_call_leaves_no_trace cfg l1 l2 c' t c :
  (check_rate_limit cfg t c' (run_checks cfg l1 ∅)).1 = false →
  admitted cfg c (l1 ++ (c', t) :: l2) ∅ = admitted cfg c (l1 ++ l2) ∅
  ∧ ∀ d, log_of (run_checks cfg (l1 ++ (c', t) :: l2) ∅) d
         = log_of (run_checks cfg (l1 ++ l2) ∅) d.
Proof.
  intros Hrej. pose proof (rejected_enforced _ _ _ _ Hrej) as Ha.
  rewrite !admitted_app, !run_checks_app. simpl.
  assert (∀ d, log_of (check_rate_limit cfg t c' (run_checks cfg l1 ∅)).2 d
               = log_of (run_checks cfg l1 ∅) d) as Hsame.
  { intros d. destruct (decide (c' = d)) as [<-|Hne].
    - apply rejection_keeps_short_log; [|done].
      apply log_length; [done|].
      rewrite log_of_empty. change (len (@nil datetime)) with 0. lia.
    - by apply check_log_other. }
  destruct (check_rate_limit cfg t c' (run_checks cfg l1 ∅)) as [ok st1].
  simpl in *. subst ok. simpl.
  destruct (history_extensional cfg c l2 st1 (run_checks cfg l1 ∅) Hsame)
    as [Hadm Hrun].
  by rewrite Hadm.
Qed.

Lemma X7_witness :
  let cfg := mkConfig "secret1" true 1 in
  let l1 : list call := [("default", 1000000)] in
  let l2 : list call := [("default", 61000000)] in
  admitted cfg "default" (l1 ++ ("default", 2000000) :: l2) ∅
  = admitted cfg "default" (l1 ++ l2) ∅
  ∧ ∀ d, log_of (run_checks cfg (l1 ++ ("default", 2000000) :: l2) ∅) d
         = log_of (run_checks cfg (l1 ++ l2) ∅) d.
Proof.
  apply (X7_rejected_call_leaves_no_trace
           (mkConfig "secret1" true 1)
           [("default", 1000000)] [("default", 61000000)]
           "default" 2000000 "default").
  vm_compute. reflexivity.
Defined.

(** ** More about the middleware *)

(** X8: the whole decision of [dispatch].  A request is let through,
    unchanged, exactly when its path is [/health], or enforcement is off,
    or the secret is empty, or the supplied credential equals the secret;
    every other request is answered with status 401 and the body
    [{"error": "Unauthorized - Invalid API Key"}]. *)
Theorem X8_dispatch_decision_table cfg request :
  (admits cfg request ↔
     url_path request = "/health"
     ∨ REQUIRE_AUTH cfg = false
     ∨ API_KEY cfg = ""
     ∨ supplied_credential request = Some (API_KEY cfg))
  ∧ (¬ admits cfg request →
     dispatch cfg request =
     Respond (mkJSONResponse 401 [("error", "Unauthorized - Invalid API Key")])).
Proof.
  unfold admits.
  destruct (decide (url_path request = "/health")) as [Hp|Hp].
  { rewrite dispatch_health by done. split; [|done]. split; [by left|done]. }
  destruct (REQUIRE_AUTH cfg) eqn:Ha; cycle 1.
  { unfold dispatch. rewrite bool_decide_eq_false_2, Ha by done. simpl.
    split; [|done]. split; [by right; left|done]. }
  destruct (decide (API_KEY cfg = "")) as [Hk|Hk].
  { unfold dispatch, truthy.
    rewrite bool_decide_eq_false_2, Ha by done.
    rewrite (bool_decide_eq_true_2 (API_KEY cfg = "")) by done. simpl.
    split; [|done]. split; [by right; right; left|done]. }
  rewrite dispatch_enforced by done. case_bool_decide as Hc.
  - split; [|done]. split; [by right; right; right|done].
  - split; [|done]. split; [done|].
    intros [?|[?|[?|?]]]; done.
Qed.

(** X9: with enforcement enabled and a secret configured, a request to
    another path than [/health] that carries no credential at all (each of
    the header and the query parameter absent or empty) is answered with
    401. *)
Theorem X9_missing_credential_rejected cfg request :
  url_path request ≠ "/health" →
  REQUIRE_AUTH cfg = true →
  API_KEY cfg ≠ "" →
  header_X_API_Key request = None ∨ header_X_API_Key request = Some "" →
  query_api_key request = None ∨ query_api_key request = Some "" →
  dispatch cfg request =
  Respond (mkJSONResponse 401 [("error", "Unauthorized - Invalid API Key")]).
Proof.
  intros Hp Ha Hk Hh Hq. rewrite dispatch_enforced by done.
  rewrite supplied_credential_query by done.
  rewrite bool_decide_eq_false_2; [done|].
  destruct Hq as [-> | ->]; [done|]. intros [= Heq]. by apply Hk.
Qed.

Lemma X9_witness :
  dispatch (mkConfig "secret1" true 60) (mkRequest "/mcp" None (Some ""))
  = Respond (mkJSONResponse 401 [("error", "Unauthorized - Invalid API Key")]).
Proof.
  apply (X9_missing_credential_rejected
           (mkConfig "secret1" true 60) (mkRequest "/mcp" None (Some ""))).
  - done.
  - reflexivity.
  - done.
  - left. reflexivity.
  - right. reflexivity.
Defined.

(** ** Sequences of tool calls *)

Section ToolRunFacts.
Context {PyFloat PyObject PyException Exchange : Type}.
Context (py_dict : list (string * string) → PyObject).
Context (service : ServiceCall PyFloat → Exchange →
                   Outcome PyObject PyException * Exchange).
Context (cfg : Config).

(** What one tool call does to the storage and to the record of service
    calls. *)
Lemma call_tool_world (tc : ToolCall PyFloat) now
    (w : World PyFloat Exchange) :
  rate_limit_storage (call_tool py_dict service cfg tc now w).2
  = (check_rate_limit cfg now "default" (rate_limit_storage w)).2
  ∧ service_calls (call_tool py_dict service cfg tc now w).2
    = service_calls w
      ++ (if (check_rate_limit cfg now "default" (rate_limit_storage w)).1
          then [delegate tc] else []).
Proof.
  assert (call_tool py_dict service cfg tc now w
          = let '(ok, st') :=
              check_rate_limit cfg now "default" (rate_limit_storage w) in
            if ok then
              let '(r, e') := service (delegate tc) (exchange w) in
              (r, mkWorld st' e' (service_calls w ++ [delegate tc]))
            else
              (Returns (py_dict [("error", "Rate limit exceeded")]),
               mkWorld st' (exchange w) (service_calls w))) as ->.
  { destruct tc; apply guarded_call_eq. }
  destruct (check_rate_limit cfg now "default" (rate_limit_storage w))
    as [[] st']; simpl.
  - by destruct (service (delegate tc) (exchange w)).
  - by rewrite app_nil_r.
Qed.

Lemma run_tools_world (tcs : list (ToolCall PyFloat * datetime))
    (w : World PyFloat Exchange) :
  rate_limit_storage (run_tools py_dict service cfg tcs w)
  = run_checks cfg (limiter_calls tcs) (rate_limit_storage w)
  ∧ ∃ forwarded,
      service_calls (run_tools py_dict service cfg tcs w)
      = service_calls w ++ forwarded
      ∧ forwarded `sublist_of` (delegate <$> tcs.*1)
      ∧ length forwarded
        = length (admitted cfg "default" (limiter_calls tcs)
                    (rate_limit_storage w)).
Proof.
  revert w. induction tcs as [|[tc now] rest IH]; intros w.
  { split; [done|]. exists []. by rewrite app_nil_r. }
  simpl. destruct (call_tool_world tc now w) as [Hst Hcalls].
  destruct (IH (call_tool py_dict service cfg tc now w).2)
    as [IHst (fw & IHcalls & IHsub & IHlen)].
  rewrite Hst in IHst, IHlen. rewrite Hcalls in IHcalls.
  split; [done|].
  destruct (check_rate_limit cfg now "default" (rate_limit_storage w))
    as [ok st']. simpl in *.
  exists ((if ok then [delegate tc] else []) ++ fw).
  split; [by rewrite IHcalls, app_assoc|].
  rewrite andb_true_r.
  split.
  - destruct ok; simpl; [by apply sublist_skip|by apply sublist_cons].
  - rewrite !length_app, IHlen. by destruct ok.
Qed.

(** X10: the tools share one limiter.  After any sequence of tool calls
    the storage is what the limiter reaches on as many checks of the one
    identity ["default"]; the service has been called once for each
    admitted check and not otherwise, in the order of the tool calls and
    with their arguments. *)
Theorem X10_tools_share_one_limiter (tcs : list (ToolCall PyFloat * datetime))
    (w : World PyFloat Exchange) :
  rate_limit_storage (run_tools py_dict service cfg tcs w)
  = run_checks cfg (limiter_calls tcs) (rate_limit_storage w)
  ∧ ∃ forwarded,
      service_calls (run_tools py_dict service cfg tcs w)
      = service_calls w ++ forwarded
      ∧ forwarded `sublist_of` (delegate <$> tcs.*1)
      ∧ length forwarded
        = length (admitted cfg "default" (limiter_calls tcs)
                    (rate_limit_storage w)).
Proof. apply run_tools_world. Qed.

Lemma limiter_calls_times (tcs : list (ToolCall PyFloat * datetime)) :
  (limiter_calls tcs).*2 = tcs.*2.
Proof.
  unfold limiter_calls. rewrite <- list_fmap_compose.
  by apply list_fmap_ext.
Qed.

(** X11: with enforcement enabled, a non-negative quota and a clock that
    never runs backwards, the tool calls made within one window of 60 s,
    whatever tools they are, reach the service at most [RATE_LIMIT]
    times. *)
Theorem X11_burst_reaches_service_within_quota
    (tcs : list (ToolCall PyFloat * datetime))
    (w : World PyFloat Exchange) (t_end : datetime) :
  REQUIRE_AUTH cfg = true →
  0 ≤ RATE_LIMIT cfg →
  rate_limit_storage w = ∅ →
  clock_monotone (limiter_calls tcs) →
  Forall (λ t, datetime_sub t_end (timedelta RATE_LIMIT_WINDOW) < t ∧ t ≤ t_end)
         (tcs.*2) →
  len (service_calls (run_tools py_dict service cfg tcs w))
  ≤ len (service_calls w) + RATE_LIMIT cfg.
Proof.
  intros Ha Hq Hempty Hmono Hspan.
  destruct (run_tools_world tcs w) as [_ (fw & -> & _ & Hlen)].
  rewrite len_app. rewrite Hempty in Hlen.
  pose proof (window_bound cfg Ha "default" (limiter_calls tcs) t_end Hq Hmono)
    as Hbound.
  unfold in_window in Hbound. rewrite filter_Forall_id in Hbound.
  - unfold len in *. lia.
  - apply admitted_Forall. by rewrite limiter_calls_times.
Qed.

End ToolRunFacts.

Lemma X11_witness :
  let service := λ (_ : ServiceCall Z) (e : unit),
                   (@Returns (list (string * string)) string [], e) in
  let cfg := mkConfig "secret1" true 1 in
  let tcs := [(tool_get_account_balance, 1000000);
              (tool_get_open_orders, 2000000)] in
  let w := @mkWorld Z unit ∅ tt [] in
  len (service_calls (run_tools (λ d, d) service cfg tcs w))
  ≤ len (service_calls w) + RATE_LIMIT cfg.
Proof.
  apply (X11_burst_reaches_service_within_quota
           (λ d : list (string * string), d)
           (λ (_ : ServiceCall Z) (e : unit),
              (@Returns (list (string * string)) string [], e))
           (mkConfig "secret1" true 1)
           [(tool_get_account_balance, 1000000);
            (tool_get_open_orders, 2000000)]
           (@mkWorld Z unit ∅ tt []) 2000000).
  - reflexivity.
  - simpl. lia.
  - reflexivity.
  - unfold clock_monotone. simpl. repeat constructor. lia.
  - simpl. unfold datetime_sub, timedelta, RATE_LIMIT_WINDOW.
    repeat constructor; lia.
Defined.

(** ** Configuration, start-up and the plain routes *)

(** X12: unless [REQUIRE_AUTH] is set to ["true"] (in any letter case),
    the server is open: whatever [API_KEY] and [RATE_LIMIT] are, the
    middleware lets every request through and the limiter admits every
    call without touching its storage. *)
Theorem X12_open_unless_require_auth_is_true py_int environ cfg :
  load_config py_int environ = Some cfg →
  lower (getenv environ "REQUIRE_AUTH" "false") ≠ "true" →
  (∀ request, admits cfg request)
  ∧ (∀ now c st, check_rate_limit cfg now c st = (true, st)).
Proof.
  unfold load_config. intros Hload Hflag.
  destruct (py_int _) as [rate_limit|]; [|done].
  injection Hload as <-. rewrite bool_decide_eq_false_2 by done. split.
  - intros request. unfold admits, dispatch. simpl. by case_bool_decide.
  - intros now c st. by rewrite check_rate_limit_eq.
Qed.

Lemma X12_witness :
  let py_int := λ s : string, if bool_decide (s = "60") then Some 60 else None in
  let environ : gmap string string := {["API_KEY" := "secret1"]} in
  let cfg := mkConfig "secret1" false 60 in
  (∀ request, admits cfg request)
  ∧ (∀ now c st, check_rate_limit cfg now c st = (true, st)).
Proof.
  apply (X12_open_unless_require_auth_is_true
           (λ s : string, if bool_decide (s = "60") then Some 60 else None)
           {["API_KEY" := "secret1"]}
           (mkConfig "secret1" false 60)).
  - unfold load_config, getenv.
    rewrite lookup_singleton_eq, !lookup_singleton_ne by done. reflexivity.
  - unfold getenv. rewrite lookup_singleton_ne by done. simpl. done.
Defined.

(** X13: without a configuration file, [init_service] reaches the
    constructor exactly when [HYPERLIQUID_PRIVATE_KEY] is set to a
    non-empty string, passing that key, the optional account address and
    the testnet flag; with the variable unset or empty it raises
    [ValueError]. *)
Theorem X13_init_from_environment {Float} (float_nonzero : Float → bool)
    (fs : string → option (option (PyValue Float)))
    (environ : gmap string string) :
  fs (getenv environ "CONFIG_FILE" "config.json") = None →
  (∀ key, environ !! "HYPERLIQUID_PRIVATE_KEY" = Some key → key ≠ "" →
     init_service float_nonzero fs environ
     = inr (mkServiceArgs
              (VStr key)
              (getenv_opt environ "HYPERLIQUID_ACCOUNT_ADDRESS")
              (VBool (bool_decide
                        (lower (getenv environ "HYPERLIQUID_TESTNET" "false")
                         = "true")))))
  ∧ (environ !! "HYPERLIQUID_PRIVATE_KEY" = None
     ∨ environ !! "HYPERLIQUID_PRIVATE_KEY" = Some "" →
     init_service float_nonzero fs environ
     = inl (ValueError "HYPERLIQUID_PRIVATE_KEY is required")).
Proof.
  intros Hfs. unfold init_service. rewrite Hfs. simpl. split.
  - intros key Hkey Hne. unfold getenv_opt at 1. rewrite Hkey. simpl.
    rewrite truthy_true by done. simpl. unfold getenv_opt at 1.
    by rewrite Hkey.
  - intros [Hkey|Hkey]; unfold getenv_opt at 1; by rewrite Hkey.
Qed.

Lemma X13_witness :
  let fs := λ _ : string, @None (option (PyValue Z)) in
  let environ : gmap string string := ∅ in
  (∀ key, environ !! "HYPERLIQUID_PRIVATE_KEY" = Some key → key ≠ "" →
     init_service (λ _, true) fs environ
     = inr (mkServiceArgs
              (VStr key)
              (getenv_opt environ "HYPERLIQUID_ACCOUNT_ADDRESS")
              (VBool (bool_decide
                        (lower (getenv environ "HYPERLIQUID_TESTNET" "false")
                         = "true")))))
  ∧ (environ !! "HYPERLIQUID_PRIVATE_KEY" = None
     ∨ environ !! "HYPERLIQUID_PRIVATE_KEY" = Some "" →
     init_service (λ _, true) fs environ
     = inl (ValueError "HYPERLIQUID_PRIVATE_KEY is required")).
Proof.
  apply (X13_init_from_environment
           (λ _ : Z, true) (λ _ : string, @None (option (PyValue Z))) ∅).
  reflexivity.
Defined.

(** X14: when the configuration file exists, the environment is not
    consulted for credentials.  [init_service] answers the same under any
    two environments that name the same file; and a document without a
    ["private_key"] entry makes it raise [ValueError], also when
    [HYPERLIQUID_PRIVATE_KEY] is set. *)
Theorem X14_config_file_shadows_environment {Float}
    (float_nonzero : Float → bool)
    (fs : string → option (option (PyValue Float)))
    (environ : gmap string string) content :
  fs (getenv environ "CONFIG_FILE" "config.json") = Some content →
  (∀ environ',
     getenv environ' "CONFIG_FILE" "config.json"
     = getenv environ "CONFIG_FILE" "config.json" →
     init_service float_nonzero fs environ'
     = init_service float_nonzero fs environ)
  ∧ (∀ config, content = Some (VDict config) →
       config !! "private_key" = None →
       init_service float_nonzero fs environ
       = inl (ValueError "HYPERLIQUID_PRIVATE_KEY is required")).
Proof.
  intros Hfs. split.
  - intros environ' Hsame. unfold init_service. by rewrite Hsame, Hfs.
  - intros config -> Hmissing. unfold init_service. rewrite Hfs. simpl.
    unfold dict_get at 1. by rewrite Hmissing.
Qed.

Lemma X14_witness :
  let content : option (PyValue Z) := Some (VDict ∅) in
  let fs := λ _ : string, Some content in
  let environ : gmap string string :=
    {["HYPERLIQUID_PRIVATE_KEY" := "0xabc"]} in
  (∀ environ',
     getenv environ' "CONFIG_FILE" "config.json"
     = getenv environ "CONFIG_FILE" "config.json" →
     init_service (λ _, true) fs environ'
     = init_service (λ _, true) fs environ)
  ∧ (∀ config, content = Some (VDict config) →
       config !! "private_key" = None →
       init_service (λ _, true) fs environ
       = inl (ValueError "HYPERLIQUID_PRIVATE_KEY is required")).
Proof.
  apply (X14_config_file_shadows_environment
           (λ _ : Z, true) (λ _ : string, Some (Some (VDict ∅)))
           {["HYPERLIQUID_PRIVATE_KEY" := "0xabc"]} (Some (VDict ∅))).
  reflexivity.
Defined.


(** X16: with no configuration file and [HYPERLIQUID_PRIVATE_KEY] unset
    or empty, the process serves nothing: [main] fails before choosing a
    mode, whatever the command line, the port and the constructor. *)
Theorem X16_no_private_key_no_server {Float} (float_nonzero : Float → bool)
    (constructor_ok : ServiceArgs Float → bool)
    (py_int : string → option Z)
    (fs : string → option (option (PyValue Float)))
    (environ : gmap string string) (sys_argv : list string) :
  fs (getenv environ "CONFIG_FILE" "config.json") = None →
  environ !! "HYPERLIQUID_PRIVATE_KEY" = None
  ∨ environ !! "HYPERLIQUID_PRIVATE_KEY" = Some "" →
  main (startup float_nonzero constructor_ok py_int fs environ sys_argv)
  = None.
Proof.
  intros Hfs Hkey. unfold main, startup. simpl.
  assert (init_service float_nonzero fs environ
          = inl (ValueError "HYPERLIQUID_PRIVATE_KEY is required")) as ->.
  { unfold init_service. rewrite Hfs. simpl.
    destruct Hkey as [Hkey|Hkey]; unfold getenv_opt at 1; by rewrite Hkey. }
  done.
Qed.

Lemma X16_witness :
  main (startup (λ _ : Z, true) (λ _, true) (λ _, Some 8080)
          (λ _, None) ∅ ["main_secure.py"; "stdio"])
  = None.
Proof.
  apply (X16_no_private_key_no_server
           (λ _ : Z, true) (λ _, true) (λ _, Some 8080)
           (λ _, None) ∅ ["main_secure.py"; "stdio"]).
  - reflexivity.
  - left. reflexivity.
Defined.

Lemma string_app_length (s t : string) :
  String.length (s +:+ t) = (String.length s + String.length t)%nat.
Proof. induction s as [|a s IH]; simpl; [done|]. by rewrite IH. Qed.

Lemma string_app_inv_tail (s1 s2 t : string) :
  s1 +:+ t = s2 +:+ t → s1 = s2.
Proof.
  revert s2. induction s1 as [|a s1 IH]; intros [|b s2] Heq.
  - done.
  - apply (f_equal String.length) in Heq.
    rewrite !string_app_length in Heq. simpl in Heq. lia.
  - apply (f_equal String.length) in Heq.
    rewrite !string_app_length in Heq. simpl in Heq. lia.
  - change (String a (s1 +:+ t) = String b (s2 +:+ t)) in Heq.
    injection Heq as -> Heq. f_equal. by apply IH.
Qed.

Lemma health_check_auth_required {Float} cfg :
  @health_check Float cfg !! "auth_required" = Some (VBool (REQUIRE_AUTH cfg)).
Proof.
  unfold health_check. rewrite !lookup_insert_ne by done.
  by rewrite lookup_insert_eq.
Qed.

Lemma health_check_rate_limit {Float} cfg :
  @health_check Float cfg !! "rate_limit"
  = Some (VStr (if REQUIRE_AUTH cfg
                then pretty (RATE_LIMIT cfg) +:+ " requests per minute"
                else "unlimited")).
Proof.
  unfold health_check. rewrite !lookup_insert_ne by done.
  by rewrite lookup_singleton_eq.
Qed.

(** X17: the health report tells the enforcement flag and, when
    enforcement is on, the quota, and nothing else of the configuration:
    two configurations give the same report exactly when they agree on
    [REQUIRE_AUTH] and, if it is on, on [RATE_LIMIT].  In particular the
    report never depends on [API_KEY]. *)
Theorem X17_health_discloses_flag_and_quota {Float} (c1 c2 : Config) :
  @health_check Float c1 = @health_check Float c2 ↔
  REQUIRE_AUTH c1 = REQUIRE_AUTH c2
  ∧ (REQUIRE_AUTH c1 = true → RATE_LIMIT c1 = RATE_LIMIT c2).
Proof.
  split.
  - intros Heq.
    pose proof (health_check_auth_required (Float:=Float) c1) as Ha1.
    pose proof (health_check_rate_limit (Float:=Float) c1) as Hr1.
    rewrite Heq in Ha1, Hr1.
    rewrite health_check_auth_required in Ha1.
    rewrite health_check_rate_limit in Hr1.
    injection Ha1 as Ha. split; [done|]. intros Hon.
    rewrite Ha, Hon in Hr1. injection Hr1 as Hr.
    apply string_app_inv_tail in Hr. by apply (inj pretty) in Hr.
  - intros [Ha Hq]. unfold health_check. rewrite <- Ha.
    destruct (REQUIRE_AUTH c1); [|done]. by rewrite Hq.
Qed.

Lemma root_auth {Float} cfg :
  @root Float cfg !! "auth"
  = Some (VStr (if REQUIRE_AUTH cfg
                then "Use X-API-Key header or api_key query parameter"
                else "No authentication required")).
Proof.
  unfold root. rewrite !lookup_insert_ne by done.
  by rewrite lookup_insert_eq.
Qed.

(** X18: what the root route advertises is sound.  Whenever its ["auth"]
    entry reads ["No authentication required"], the middleware lets every
    request through and the limiter admits every call. *)
Theorem X18_advertised_openness_is_sound {Float} cfg :
  @root Float cfg !! "auth" = Some (VStr "No authentication required") →
  (∀ request, admits cfg request)
  ∧ (∀ now c st, check_rate_limit cfg now c st = (true, st)).
Proof.
  rewrite root_auth. intros Hauth.
  assert (REQUIRE_AUTH cfg = false) as Ha.
  { destruct (REQUIRE_AUTH cfg); [|done]. by injection Hauth. }
  split.
  - intros request. unfold admits, dispatch. rewrite Ha. simpl.
    by case_bool_decide.
  - intros now c st. by rewrite check_rate_limit_eq, Ha.
Qed.

Lemma X18_witness :
  let cfg := mkConfig "secret1" false 60 in
  (∀ request, admits cfg request)
  ∧ (∀ now c st, check_rate_limit cfg now c st = (true, st)).
Proof.
  apply (X18_advertised_openness_is_sound (Float:=Z)
           (mkConfig "secret1" false 60)).
  rewrite root_auth. reflexivity.
Defined.
